(** * Repository-scoped blob links and upload purging

    A shallow embedding of the registry storage layer's linked blob store
    (the per-repository facade over the global, digest-keyed blob store)
    and of the upload purger, with the properties their specification
    states about them.

    The linked blob store orchestrates collaborators that live outside the
    file it is written in: the storage driver, the global blob store, the blob
    server, the registry and the clock.  Their calls are operations [Op],
    answered by an arbitrary handler over an arbitrary collaborator state,
    and every call is recorded in the order it is made, so that "what is
    called, with which key, and what is not" can be stated and proved for
    every behaviour of the collaborators. *)

From Stdlib Require Import ZArith Ascii String.
From stdpp Require Import base option list strings pretty gmap sets.

Local Open Scope string_scope.
Local Open Scope Z_scope.
Local Open Scope list_scope.

(** ** Data *)

(** [digest.Digest] is a Go string type. *)
Abbreviation Digest := string (only parsing).

(** [time.Time], as seconds since the epoch. *)
Abbreviation Time := Z (only parsing).

(** [v1.Descriptor]: the three fields this code reads or writes; the others
    stay at their zero value everywhere in the embedded code. *)
Module v1.
Record Descriptor := mkDescriptor {
  MediaType : string;
  Digest : Digest;
  Size : Z;
}.
End v1.
Abbreviation Descriptor := v1.Descriptor.

(** [reference.Canonical]: a repository name with a digest. *)
Module reference.
Record Canonical := mkCanonical {
  Name : string;
  Digest : Digest;
}.
End reference.
Abbreviation Canonical := reference.Canonical.

(** Errors of the storage driver package. *)
Inductive driver_error :=
| PathNotFoundError (path : string)
| DriverFailure (detail : string).

(** The error values that flow through the linked blob store.  The three
    sentinels and [ErrBlobMounted] are those of the [distribution] package;
    a driver error keeps its driver type, which is what the type switches
    of [Resume] and [linkedBlobStatter.Stat] look at. *)
Inductive error :=
| ErrBlobUnknown
| ErrBlobUploadUnknown
| ErrUnsupported
| ErrBlobMounted (From : Canonical) (Descriptor_ : Descriptor)
| DriverError (e : driver_error)
| PathError (msg : string)
| ParseError (msg : string)
| OtherError (msg : string).

(** What a Go call yields: its value, its error, or a run-time panic. *)
Inductive result (A : Type) :=
| Ok (a : A)
| Err (e : error)
| Panic (msg : string).
Arguments Ok {A} a.
Arguments Err {A} e.
Arguments Panic {A} msg.

(** The logical path kinds handed to [pathFor] by this code.  The kind
    stored in [linkDirectoryPathSpec] is declared with the path resolver;
    it is kept as the directory's label. *)
Inductive pathSpec :=
| uploadDataPathSpec (name id : string)
| uploadStartedAtPathSpec (name id : string)
| layerLinkPathSpec (name : string) (digest : Digest)
| manifestRevisionLinkPathSpec (name : string) (revision : Digest)
| linkDirectorySpec (name kind : string).

(** [driver.FileInfo], as far as [Enumerate] looks at it. *)
Record FileInfo := mkFileInfo {
  Path : string;
  IsDir : bool;
}.

(** Modelled from the spec: what the storage driver's [Walk], which is not
    part of the embedded files, goes through.  One step is the next entry
    handed to the visitor, or the I/O failure that ends the walk. *)
Inductive WalkStep :=
| Visit (fileInfo : FileInfo)
| WalkFails (e : driver_error).

(** ** Calls to collaborators *)

Inductive Op :=
(* blobStore *)
| OpReadlink (path : string)
| OpLink (path : string) (target : Digest)
| OpStatterStat (dgst : Digest)
| OpBlobGet (dgst : Digest)
| OpBlobOpen (dgst : Digest)
(* blobServer and the response writer *)
| OpHeaderSet (key value : string)
| OpServeBlob (dgst : Digest)
(* storage driver *)
| OpGetContent (path : string)
| OpPutContent (path : string) (content : string)
| OpDelete (path : string)
| OpWriter (path : string) (append : bool)
| OpWalk (root : string)
(* uuid and clock *)
| OpNewString
| OpNow
(* registry and source repository *)
| OpRepository (name : Canonical)
| OpRepositoryStat (repo : string) (dgst : Digest)
(* the ingestor callback of Enumerate *)
| OpIngestor (dgst : Digest).

(** The answer type of each call. *)
Definition ret_ty (o : Op) : Type :=
  match o with
  | OpReadlink _ => result Digest
  | OpLink _ _ => result unit
  | OpStatterStat _ => result Descriptor
  | OpBlobGet _ => result string
  | OpBlobOpen _ => result string
  | OpHeaderSet _ _ => unit
  | OpServeBlob _ => result unit
  | OpGetContent _ => driver_error + string
  | OpPutContent _ _ => driver_error + unit
  | OpDelete _ => driver_error + unit
  | OpWriter _ _ => driver_error + nat
  | OpWalk _ => list WalkStep
  | OpNewString => string
  | OpNow => Time
  | OpRepository _ => result string
  | OpRepositoryStat _ _ => result Descriptor
  | OpIngestor _ => result unit
  end.

(** The collaborators: a handler answering every call from its state, and
    the pure library functions the code uses. *)
Class Collaborators (Σ : Type) := {
  handle : ∀ o : Op, Σ → ret_ty o * Σ;
  pathFor : pathSpec → string + string;
  time_Format : Time → string;
  time_Parse : string → string + Time;
}.

(** The state a call runs in: the collaborators' state, the calls made so
    far (oldest first) and the lines written to the context logger. *)
Record World (Σ : Type) := mkWorld {
  ext : Σ;
  calls : list Op;
  logged : list string;
}.
Arguments mkWorld {Σ} ext calls logged.
Arguments ext {Σ} w.
Arguments calls {Σ} w.
Arguments logged {Σ} w.

(** ** The monad of the embedded functions *)

Definition M (Σ : Type) (A : Type) : Type := World Σ → result A * World Σ.

Global Instance M_ret {Σ} : MRet (M Σ) := λ A a w, (Ok a, w).

Global Instance M_bind {Σ} : MBind (M Σ) := λ A B f m w,
  match m w with
  | (Ok a, w') => f a w'
  | (Err e, w') => (Err e, w')
  | (Panic msg, w') => (Panic msg, w')
  end.

Section Calls.
Context {Σ : Type} `{!Collaborators Σ}.

(** Make a call: the handler answers, the call is recorded. *)
Definition call (o : Op) : World Σ → ret_ty o * World Σ := λ w,
  let '(x, σ) := handle o (ext w) in
  (x, mkWorld σ (calls w ++ [o]) (logged w)).

(** A call into the storage driver: its failure is a driver error. *)
Definition driver {A} (c : World Σ → (driver_error + A) * World Σ) : M Σ A :=
  λ w, match c w with
       | (inr a, w') => (Ok a, w')
       | (inl e, w') => (Err (DriverError e), w')
       end.

(** A pure computation that may fail. *)
Definition lift {A} (r : result A) : M Σ A := λ w, (r, w).

Definition fail {A} (e : error) : M Σ A := lift (Err e).

Definition pathFor_ (spec : pathSpec) : M Σ string :=
  lift (match pathFor spec with inr p => Ok p | inl msg => Err (PathError msg) end).

(** [dcontext.GetLogger(ctx)] *)
Definition log (line : string) : M Σ unit := λ w,
  (Ok tt, mkWorld (ext w) (calls w) (logged w ++ [line])).

(** Go's [v, err := c] followed by a test of [err]: the error becomes a
    value the caller inspects; a panic keeps unwinding. *)
Definition attempt {A} (c : M Σ A) : M Σ (error + A) := λ w,
  match c w with
  | (Ok a, w') => (Ok (inr a), w')
  | (Err e, w') => (Ok (inl e), w')
  | (Panic msg, w') => (Panic msg, w')
  end.

(** A call that cannot fail. *)
Definition total {A} (c : World Σ → A * World Σ) : M Σ A := λ w,
  let '(a, w') := c w in (Ok a, w').

(** The collaborators' methods, under the names the code calls them by. *)
Definition blobStore_readlink (path : string) : M Σ Digest := call (OpReadlink path).
Definition blobStore_link (path : string) (target : Digest) : M Σ unit := call (OpLink path target).
Definition statter_Stat (dgst : Digest) : M Σ Descriptor := call (OpStatterStat dgst).
Definition blobStore_Get (dgst : Digest) : M Σ string := call (OpBlobGet dgst).
Definition blobStore_Open (dgst : Digest) : M Σ string := call (OpBlobOpen dgst).
Definition Header_Set (key value : string) : M Σ unit := total (call (OpHeaderSet key value)).
Definition blobServer_ServeBlob (dgst : Digest) : M Σ unit := call (OpServeBlob dgst).
Definition driver_GetContent (path : string) : M Σ string := driver (call (OpGetContent path)).
Definition driver_PutContent (path content : string) : M Σ unit := driver (call (OpPutContent path content)).
Definition driver_Delete (path : string) : M Σ unit := driver (call (OpDelete path)).
Definition driver_Writer (path : string) (append : bool) : M Σ nat := driver (call (OpWriter path append)).
Definition uuid_NewString : M Σ string := total (call OpNewString).
Definition time_Now : M Σ Time := total (call OpNow).
Definition registry_Repository (name : Canonical) : M Σ string := call (OpRepository name).
Definition repo_Blobs_Stat (repo : string) (dgst : Digest) : M Σ Descriptor := call (OpRepositoryStat repo dgst).

(** Modelled from the spec: the loop of the storage driver's [Walk].  The
    visitor is run on the entries in order; its first error ends the walk
    ("first-error-stops"), and so does an I/O failure of the walk itself. *)
Fixpoint walk_steps (steps : list WalkStep) (f : FileInfo → M Σ unit) : M Σ unit :=
  match steps with
  | [] => mret tt
  | WalkFails e :: _ => fail (DriverError e)
  | Visit fileInfo :: rest => f fileInfo;; walk_steps rest f
  end.

(** Modelled from the spec: the storage driver's [Walk] is not part of the
    embedded files.  The spec gives [walk(rootPath, visitor)] over a flat
    path namespace, aborted at once by an I/O error during the walk or by
    an error the visitor returns.  The driver produces the entries below
    [root]; the visitor is applied to them in that order. *)
Definition driver_Walk (root : string) (f : FileInfo → M Σ unit) : M Σ unit :=
  steps ← total (call (OpWalk root));
  walk_steps steps f.
End Calls.

(** ** Interfaces and records of the [distribution] package *)

Module distribution.
(** [distribution.BlobDescriptorService]: an interface value, its methods
    closed over their receiver. *)
Record BlobDescriptorService (Σ : Type) := {
  Stat : Digest → M Σ Descriptor;
  Clear : Digest → M Σ unit;
  SetDescriptor : Digest → Descriptor → M Σ unit;
}.
Arguments Stat {Σ} _ _.
Arguments Clear {Σ} _ _.
Arguments SetDescriptor {Σ} _ _ _.
End distribution.

(** [distribution.CreateOptions]; [From] and [Stat] are nil until an option
    sets them. *)
Module CreateOptions.
Record mount := mkMount {
  ShouldMount : bool;
  From : option Canonical;
  Stat : option Descriptor;
}.
Record t := mk {
  Mount : mount;
}.
(** [var opts distribution.CreateOptions] *)
Definition zero : t := mk (mkMount false None None).
End CreateOptions.

(** [distribution.BlobCreateOption]: [Apply] updates the options or fails. *)
Definition BlobCreateOption : Type := CreateOptions.t → result CreateOptions.t.

(** [linkPathFunc] *)
Definition linkPathFunc : Type := string → Digest → result string.

(** The upload controller handed back by [Create] and [Resume]; the
    digester starts fresh in both and is not represented. *)
Module blobWriter.
Record t := mk {
  id : string;
  startedAt : Time;
  fileWriter : nat;
  path : string;
  resumableDigestEnabled : bool;
}.
End blobWriter.

(** ** [path.Split] *)

(** [path.Split] cuts after the last slash: [(dir, file)]. *)
Fixpoint path_Split_from (s dir file : string) : string * string :=
  match s with
  | EmptyString => (dir, file)
  | String c s' =>
      if Ascii.eqb c "/"%char
      then path_Split_from s' (dir +:+ file +:+ "/") ""
      else path_Split_from s' dir (file +:+ String c "")
  end.

Definition path_Split (p : string) : string * string := path_Split_from p "" "".

(** ** [linkedBlobStatter] *)

Module linkedBlobStatter.
Record t := mk {
  repository : string;
  linkPath : linkPathFunc;
}.

Section defs.
Context {Σ : Type} `{!Collaborators Σ}.

Definition Stat (lbs : t) (dgst : Digest) : M Σ Descriptor :=
  blobLinkPath ← lift (linkPath lbs (repository lbs) dgst);
  r ← attempt (blobStore_readlink blobLinkPath);
  match r with
  | inl err =>
      match err with
      | DriverError (PathNotFoundError _) => fail ErrBlobUnknown
      | _ => fail err
      end
  | inr target =>
      (if decide (target ≠ dgst)
       then log ("looking up blob with canonical target: " +:+ dgst +:+ " -> " +:+ target)
       else mret tt);;
      statter_Stat target
  end.

Definition Clear (lbs : t) (dgst : Digest) : M Σ unit :=
  blobLinkPath ← lift (linkPath lbs (repository lbs) dgst);
  driver_Delete blobLinkPath.

Definition SetDescriptor (lbs : t) (dgst : Digest) (desc : Descriptor) : M Σ unit :=
  mret tt.

(** [var _ distribution.BlobDescriptorService = &linkedBlobStatter{}] *)
Definition service (lbs : t) : distribution.BlobDescriptorService Σ :=
  {| distribution.Stat := Stat lbs;
     distribution.Clear := Clear lbs;
     distribution.SetDescriptor := SetDescriptor lbs |}.

(** [blobLinkPath] and [manifestRevisionLinkPath] *)
Definition of_pathFor (spec : pathSpec) : result string :=
  match pathFor spec with inr p => Ok p | inl msg => Err (PathError msg) end.

Definition blobLinkPath : linkPathFunc :=
  λ name dgst, of_pathFor (layerLinkPathSpec name dgst).

Definition manifestRevisionLinkPath : linkPathFunc :=
  λ name dgst, of_pathFor (manifestRevisionLinkPathSpec name dgst).
End defs.
End linkedBlobStatter.

(** ** [linkedBlobStore] *)

Module linkedBlobStore.
(** The embedded [*blobStore], the registry, the blob server and the driver
    are reached through [call]; the record keeps the fields that are data. *)
Record t (Σ : Type) := mk {
  blobAccessController : distribution.BlobDescriptorService Σ;
  repository : string;
  deleteEnabled : bool;
  resumableDigestEnabled : bool;
  linkPath : linkPathFunc;
  linkDirectoryPathSpec : pathSpec;
}.
Arguments mk {Σ} _ _ _ _ _ _.
Arguments blobAccessController {Σ} _.
Arguments repository {Σ} _.
Arguments deleteEnabled {Σ} _.
Arguments resumableDigestEnabled {Σ} _.
Arguments linkPath {Σ} _.
Arguments linkDirectoryPathSpec {Σ} _.

Section defs.
Context {Σ : Type} `{!Collaborators Σ}.

Definition Stat (lbs : t Σ) (dgst : Digest) : M Σ Descriptor :=
  distribution.Stat (blobAccessController lbs) dgst.

Definition Get (lbs : t Σ) (dgst : Digest) : M Σ string :=
  canonical ← Stat lbs dgst;
  blobStore_Get (v1.Digest canonical).

Definition Open (lbs : t Σ) (dgst : Digest) : M Σ string :=
  canonical ← Stat lbs dgst;
  blobStore_Open (v1.Digest canonical).

Definition ServeBlob (lbs : t Σ) (dgst : Digest) : M Σ unit :=
  canonical ← Stat lbs dgst;
  (if decide (v1.MediaType canonical ≠ "")
   then Header_Set "Content-Type" (v1.MediaType canonical)
   else mret tt);;
  blobServer_ServeBlob (v1.Digest canonical).

(** [WithMountFrom]; the type assertion on the options always holds for
    the options value [Create] passes. *)
Definition WithMountFrom (ref : Canonical) : BlobCreateOption := λ opts,
  Ok (CreateOptions.mk
        (CreateOptions.mkMount true (Some ref)
           (CreateOptions.Stat (CreateOptions.Mount opts)))).

(** The loop of [linkBlob] over [dgsts], with the set of digests seen. *)
Fixpoint linkBlob_loop (lbs : t Σ) (canonical : Descriptor)
    (dgsts : list Digest) (seenDigests : gset Digest) : M Σ unit :=
  match dgsts with
  | [] => mret tt
  | dgst :: rest =>
      if decide (dgst ∈ seenDigests)
      then linkBlob_loop lbs canonical rest seenDigests
      else
        blobLinkPath ← lift (linkPath lbs (repository lbs) dgst);
        blobStore_link blobLinkPath (v1.Digest canonical);;
        linkBlob_loop lbs canonical rest ({[dgst]} ∪ seenDigests)
  end.

Definition linkBlob (lbs : t Σ) (canonical : Descriptor) (aliases : list Digest) : M Σ unit :=
  let dgsts := v1.Digest canonical :: aliases in
  linkBlob_loop lbs canonical dgsts ∅.

(** [mount] returns [desc] together with [linkBlob]'s error; its caller
    reads [desc] only when that error is nil. *)
Definition mount (lbs : t Σ) (sourceRepo : Canonical) (dgst : Digest)
    (sourceStat : option Descriptor) : M Σ Descriptor :=
  stat ← match sourceStat with
         | None =>
             repo ← registry_Repository sourceRepo;
             repo_Blobs_Stat repo dgst
         | Some stat => mret stat
         end;
  let desc := {| v1.Size := v1.Size stat;
                 v1.MediaType := "application/octet-stream";
                 v1.Digest := dgst |} in
  linkBlob lbs desc [];;
  mret desc.

Definition newBlobUpload (lbs : t Σ) (uuid path : string) (startedAt : Time)
    (append : bool) : M Σ blobWriter.t :=
  fw ← driver_Writer path append;
  mret {| blobWriter.id := uuid;
          blobWriter.startedAt := startedAt;
          blobWriter.fileWriter := fw;
          blobWriter.path := path;
          blobWriter.resumableDigestEnabled := resumableDigestEnabled lbs |}.

Fixpoint apply_options (options : list BlobCreateOption) (opts : CreateOptions.t)
    : result CreateOptions.t :=
  match options with
  | [] => Ok opts
  | option :: rest =>
      match option opts with
      | Ok opts' => apply_options rest opts'
      | Err err => Err err
      | Panic msg => Panic msg
      end
  end.

Definition Create (lbs : t Σ) (options : list BlobCreateOption) : M Σ blobWriter.t :=
  log "(*linkedBlobStore).Create";;
  opts ← lift (apply_options options CreateOptions.zero);
  (if CreateOptions.ShouldMount (CreateOptions.Mount opts)
   then
     match CreateOptions.From (CreateOptions.Mount opts) with
     | None => lift (Panic "nil pointer dereference")
     | Some from =>
         r ← attempt (mount lbs from (reference.Digest from)
                        (CreateOptions.Stat (CreateOptions.Mount opts)));
         match r with
         | inr desc => fail (ErrBlobMounted from desc)
         | inl _ => mret tt
         end
     end
   else mret tt);;
  uuid ← uuid_NewString;
  startedAt ← time_Now;
  path ← pathFor_ (uploadDataPathSpec (repository lbs) uuid);
  startedAtPath ← pathFor_ (uploadStartedAtPathSpec (repository lbs) uuid);
  driver_PutContent startedAtPath (time_Format startedAt);;
  newBlobUpload lbs uuid path startedAt false.

Definition Resume (lbs : t Σ) (id : string) : M Σ blobWriter.t :=
  log "(*linkedBlobStore).Resume";;
  startedAtPath ← pathFor_ (uploadStartedAtPathSpec (repository lbs) id);
  r ← attempt (driver_GetContent startedAtPath);
  match r with
  | inl err =>
      match err with
      | DriverError (PathNotFoundError _) => fail ErrBlobUploadUnknown
      | _ => fail err
      end
  | inr startedAtBytes =>
      startedAt ← lift (match time_Parse startedAtBytes with
                        | inr t => Ok t
                        | inl msg => Err (ParseError msg)
                        end);
      path ← pathFor_ (uploadDataPathSpec (repository lbs) id);
      newBlobUpload lbs id path startedAt true
  end.

Definition Delete (lbs : t Σ) (dgst : Digest) : M Σ unit :=
  if negb (deleteEnabled lbs) then fail ErrUnsupported
  else
    distribution.Stat (blobAccessController lbs) dgst;;
    distribution.Clear (blobAccessController lbs) dgst;;
    mret tt.

(** The visitor [Enumerate] hands to the driver's [Walk]. *)
Definition Enumerate_visit (lbs : t Σ) (ingestor : Digest → M Σ unit)
    (fileInfo : FileInfo) : M Σ unit :=
  if IsDir fileInfo then mret tt
  else
    let filePath := Path fileInfo in
    let fileName := (path_Split filePath).2 in
    if decide (fileName ≠ "link") then mret tt
    else
      digest ← blobStore_readlink filePath;
      r ← attempt (Stat lbs digest);
      match r with
      | inl err =>
          match err with
          | ErrBlobUnknown => mret tt
          | _ => fail err
          end
      | inr _ => ingestor digest
      end.

Definition Enumerate (lbs : t Σ) (ingestor : Digest → M Σ unit) : M Σ unit :=
  rootPath ← pathFor_ (linkDirectoryPathSpec lbs);
  driver_Walk rootPath (Enumerate_visit lbs ingestor).
End defs.

Section put.
Context {Σ : Type} `{!Collaborators Σ}.

(** [digest.FromBytes], the global [blobStore.Put] and [err.Error()] are
    declared outside the embedded files. *)
Variable digest_FromBytes : string → Digest.
Variable blobStore_Put : string → string → M Σ Descriptor.
Variable Error : error → string.

(** [Put] returns [desc] together with [linkBlob]'s error; the model keeps
    the error when there is one. *)
Definition Put (lbs : t Σ) (mediaType p : string) : M Σ Descriptor :=
  let dgst := digest_FromBytes p in
  r ← attempt (blobStore_Put mediaType p);
  match r with
  | inl err =>
      log ("error putting into main store: " +:+ Error err);;
      fail err
  | inr desc =>
      distribution.SetDescriptor (blobAccessController lbs) dgst desc;;
      linkBlob lbs desc [];;
      mret desc
  end.
End put.
End linkedBlobStore.

(** ** An in-memory set of collaborators

    A concrete handler in the manner of the in-memory storage driver the
    tests run on: files by path, global blobs by digest, a counter for
    upload ids and a clock.  [faulty] lists the paths on which the driver
    reports an I/O failure and [rejected] the digests the ingestor
    refuses, so that error paths can be exercised.  It stands in for the
    driver, blob store and path resolver only in the examples: every
    property below is proved for all collaborators. *)

Module inmemory.
Record state := mk {
  files : list (string * string);
  blobs : list (string * string);
  uploads : nat;
  clock : Z;
  faulty : list string;
  rejected : list string;
}.

Definition root : string := "/docker/registry/v2/repositories/".

Definition pathFor (spec : pathSpec) : string + string :=
  match spec with
  | uploadDataPathSpec name id => inr (root +:+ name +:+ "/_uploads/" +:+ id +:+ "/data")
  | uploadStartedAtPathSpec name id => inr (root +:+ name +:+ "/_uploads/" +:+ id +:+ "/startedat")
  | layerLinkPathSpec name dgst => inr (root +:+ name +:+ "/_layers/" +:+ dgst +:+ "/link")
  | manifestRevisionLinkPathSpec name dgst =>
      inr (root +:+ name +:+ "/_manifests/revisions/" +:+ dgst +:+ "/link")
  | linkDirectorySpec name kind => inr (root +:+ name +:+ "/" +:+ kind)
  end.

(** Entries by key, in the order a walk visits them. *)
Fixpoint find (kvs : list (string * string)) (key : string) : option string :=
  match kvs with
  | [] => None
  | (k, v) :: rest => if String.eqb k key then Some v else find rest key
  end.

Fixpoint put (kvs : list (string * string)) (key value : string) : list (string * string) :=
  match kvs with
  | [] => [(key, value)]
  | (k, v) :: rest =>
      if String.eqb k key then (k, value) :: rest else (k, v) :: put rest key value
  end.

Definition remove (kvs : list (string * string)) (key : string) : list (string * string) :=
  List.filter (λ kv, negb (String.eqb kv.1 key)) kvs.

Definition listed (keys : list string) (key : string) : bool :=
  existsb (String.eqb key) keys.

Definition with_files (σ : state) (fs : list (string * string)) : state :=
  mk fs (blobs σ) (uploads σ) (clock σ) (faulty σ) (rejected σ).

Definition stat_blob (σ : state) (dgst : Digest) : result Descriptor :=
  match find (blobs σ) dgst with
  | Some content =>
      Ok (v1.mkDescriptor "application/octet-stream" dgst (Z.of_nat (String.length content)))
  | None => Err ErrBlobUnknown
  end.

Definition read_blob (σ : state) (dgst : Digest) : result string :=
  match find (blobs σ) dgst with
  | Some content => Ok content
  | None => Err ErrBlobUnknown
  end.

Definition on_path {A} (σ : state) (path : string) (r : driver_error + A) : driver_error + A :=
  if listed (faulty σ) path then inl (DriverFailure "i/o failure") else r.

Definition get_content (σ : state) (path : string) : driver_error + string :=
  on_path σ path
    (match find (files σ) path with
     | Some content => inr content
     | None => inl (PathNotFoundError path)
     end).

Definition handle (o : Op) (σ : state) : ret_ty o * state :=
  match o return ret_ty o * state with
  | OpReadlink path =>
      (match get_content σ path with
       | inr content => Ok content
       | inl e => Err (DriverError e)
       end, σ)
  | OpLink path target =>
      (match on_path σ path (inr tt) with
       | inr _ => Ok tt
       | inl e => Err (DriverError e)
       end,
       if listed (faulty σ) path then σ else with_files σ (put (files σ) path target))
  | OpStatterStat dgst => (stat_blob σ dgst, σ)
  | OpBlobGet dgst => (read_blob σ dgst, σ)
  | OpBlobOpen dgst => (read_blob σ dgst, σ)
  | OpHeaderSet _ _ => (tt, σ)
  | OpServeBlob dgst =>
      (match read_blob σ dgst with Ok _ => Ok tt | Err e => Err e | Panic m => Panic m end, σ)
  | OpGetContent path => (get_content σ path, σ)
  | OpPutContent path content =>
      (on_path σ path (inr tt),
       if listed (faulty σ) path then σ else with_files σ (put (files σ) path content))
  | OpDelete path =>
      (on_path σ path
         (match find (files σ) path with
          | Some _ => inr tt
          | None => inl (PathNotFoundError path)
          end),
       if listed (faulty σ) path then σ else with_files σ (remove (files σ) path))
  | OpWriter path _ => (on_path σ path (inr 0%nat), σ)
  | OpWalk dir =>
      (if listed (faulty σ) dir then [WalkFails (DriverFailure "i/o failure")]
       else (λ kv, Visit (mkFileInfo kv.1 false))
              <$> List.filter (λ kv, String.prefix dir kv.1) (files σ), σ)
  | OpNewString =>
      ("upload-" +:+ pretty (uploads σ),
       mk (files σ) (blobs σ) (S (uploads σ)) (clock σ) (faulty σ) (rejected σ))
  | OpNow => (clock σ, σ)
  | OpRepository name => (Ok (reference.Name name), σ)
  | OpRepositoryStat repo dgst =>
      (match find (files σ) (root +:+ repo +:+ "/_layers/" +:+ dgst +:+ "/link") with
       | Some target => stat_blob σ target
       | None => Err ErrBlobUnknown
       end, σ)
  | OpIngestor dgst =>
      (if listed (rejected σ) dgst then Err (OtherError "rejected") else Ok tt, σ)
  end.

(** Timestamps are written as decimal seconds. *)
Definition time_Format (t : Z) : string := pretty t.

Definition digit (c : ascii) : option Z :=
  let n := Z.of_nat (nat_of_ascii c) in
  if decide (48 ≤ n ≤ 57) then Some (n - 48) else None.

Fixpoint parse_digits (s : string) (acc : Z) : option Z :=
  match s with
  | EmptyString => Some acc
  | String c s' => d ← digit c; parse_digits s' (10 * acc + d)
  end.

Definition time_Parse (s : string) : string + Z :=
  match s with
  | EmptyString => inl "cannot parse timestamp"
  | _ => match parse_digits s 0 with
         | Some t => inr t
         | None => inl "cannot parse timestamp"
         end
  end.

#[global] Instance collaborators : Collaborators state :=
  Build_Collaborators state handle pathFor time_Format time_Parse.

Definition world (σ : state) : World state := mkWorld σ [] [].
End inmemory.

(** ** The upload purger

    The purger's source is not among the embedded files; its tests are.
    It is modelled from the specification's algorithm, over a flat
    namespace of files whose paths are lists of segments. *)

Module purge.

(** Modelled from the spec: the storage the purger sweeps, missing from the
    sources.  The spec describes a flat path namespace with atomic per-path
    operations whose deletions can fail; [files] is that namespace, by path
    segments, and [undeletable] the directories whose deletion the driver
    refuses with an I/O error. *)
Record Storage := mkStorage {
  files : gmap (list string) string;
  undeletable : gset (list string);
}.

(** Modelled from the spec: the per-session failures a sweep reports,
    missing from the sources.  The spec names two: a startedAt file whose
    timestamp does not parse, and a deletion that fails. *)
Inductive purge_error :=
| BadTimestamp (dir : list string)
| DeleteFailed (dir : list string).

Definition error_dir (e : purge_error) : list string :=
  match e with BadTimestamp dir | DeleteFailed dir => dir end.

(** Modelled from the spec: what the gathering pass keeps of a session,
    missing from the sources: its directory and its recorded start time. *)
Record uploadData := mkUploadData {
  containingDir : list string;
  startedAt : Z;
}.

(** Modelled from the spec: the structural recognition of upload sessions,
    missing from the sources.  Upload artifacts live under a fixed
    [_uploads] segment followed by the upload id; a path strictly below
    such a pair belongs to the session directory that ends with the id. *)
Fixpoint session_of (p : list string) : option (list string) :=
  match p with
  | [] => None
  | seg :: rest =>
      if decide (seg = "_uploads")
      then match rest with
           | id :: _ :: _ => Some [seg; id]
           | _ => None
           end
      else (seg ::.) <$> session_of rest
  end.

(** Modelled from the spec: the session directories found by walking the
    entire namespace, whichever repository owns them. *)
Definition sessions (st : Storage) : list (list string) :=
  elements (set_omap session_of (dom (files st)) : gset (list string)).

(** Modelled from the spec: the driver's recursive delete, missing from the
    sources.  It fails as a whole on a directory the driver refuses, and
    otherwise removes exactly the files below the directory. *)
Definition driver_Delete (st : Storage) (dir : list string) : option Storage :=
  if decide (dir ∈ undeletable st) then None
  else Some (mkStorage (filter (λ kv, ¬ dir `prefix_of` kv.1) (files st)) (undeletable st)).

Section defs.
(** The parser of the timestamp format. *)
Variable parse : string → option Z.

(** Modelled from the spec: steps 2 and 3 of the purge algorithm, missing
    from the sources.  A session without a startedAt file is skipped: no
    error, no entry.  One whose timestamp does not parse is reported and
    the scan goes on. *)
Definition gather (st : Storage) (acc : list uploadData * list purge_error)
    (dir : list string) : list uploadData * list purge_error :=
  match files st !! (dir ++ ["startedat"]) with
  | None => acc
  | Some content =>
      match parse content with
      | Some t => (acc.1 ++ [mkUploadData dir t], acc.2)
      | None => (acc.1, acc.2 ++ [BadTimestamp dir])
      end
  end.

(** Modelled from the spec: the gathering pass over every session found,
    missing from the sources; the tests call it [getOutstandingUploads]. *)
Definition getOutstandingUploads (st : Storage) : list uploadData * list purge_error :=
  foldl (gather st) ([], []) (sessions st).

(** Modelled from the spec: steps 4 and 6 of the purge algorithm, missing
    from the sources.  A session started before [olderThan] is a
    candidate; it is removed only when [actuallyDelete] is set, a dry run
    only gathers its path; a failed removal is added to the errors and the
    sweep goes on. *)
Definition purge_one (olderThan : Z) (actuallyDelete : bool)
    (acc : list (list string) * list purge_error * Storage) (u : uploadData)
    : list (list string) * list purge_error * Storage :=
  let '(deleted, errors, st) := acc in
  if decide (startedAt u < olderThan)
  then
    if actuallyDelete
    then match driver_Delete st (containingDir u) with
         | Some st' => (deleted ++ [containingDir u], errors, st')
         | None => (deleted, errors ++ [DeleteFailed (containingDir u)], st)
         end
    else (deleted ++ [containingDir u], errors, st)
  else acc.

(** Modelled from the spec: [purge(olderThan, actuallyDelete) ->
    (deletedPaths, errors)], missing from the sources; the storage after
    the sweep is returned with them. *)
Definition PurgeUploads (st : Storage) (olderThan : Z) (actuallyDelete : bool)
    : list (list string) * list purge_error * Storage :=
  let '(uploads, errors) := getOutstandingUploads st in
  foldl (purge_one olderThan actuallyDelete) ([], errors, st) uploads.
End defs.
End purge.

(** ** Request and response contexts

    The contexts of [internal/dcontext/http.go].  A [context.Context] is
    read through its [Value] method only.  The mutexes of the source are
    left out: the embedding is sequential. *)

Module http.
(** What the contexts read of a [*http.Request]: three fields, and the
    results of its methods [Referer], [UserAgent] and [Header.Get]. *)
Record Request := mkRequest {
  RequestURI : string;
  Method : string;
  Host : string;
  Referer : string;
  UserAgent : string;
  Header_Get : string → string;
}.

(** An [http.ResponseWriter] with state [RW]: [Header().Get], [Write]
    (the count and the error it returns), [WriteHeader], and [Flush] when
    the writer is also an [http.Flusher]. *)
Class ResponseWriter (RW : Type) := {
  Header : RW → string → string;
  Write : string → RW → (Z * option error) * RW;
  WriteHeader : Z → RW → RW;
  Flusher : option (RW → RW);
}.

Definition StatusOK : Z := 200.
End http.

Module dcontext.

(** A context key is an [interface{}]: a string, or a value of some other
    type. *)
Inductive key :=
  | KString (keyStr : string)
  | KOther (tag : nat).

(** A pointer to an [instrumentedResponseWriter]. *)
Definition pointer := nat.

(** The response writers a context can hold: the instrumented ones of this
    file and those of other packages. *)
Inductive writer :=
  | Instrumented (irw : pointer)
  | Foreign (tag : nat).

(** The values of an [interface{}] that the contexts return: [nil], the
    dynamic types the file produces, and values of other types. *)
Inductive value :=
  | Nil
  | VRequest (r : http.Request)
  | VString (s : string)
  | VTime (t : Time)
  | VVars (vars : gmap string string)
  | VResponseWriter (rw : writer)
  | VInt (n : Z)
  | VInt64 (n : Z)
  | VOther (tag : nat).

(** The contexts: the three of the file, each over its embedded parent
    context, and any context of another package, given by its [Value]
    method.  The instrumented response writer is held by pointer: the
    fields [Write] and [WriteHeader] change are in the heap. *)
Inductive Context :=
  | Other (Value : key → value)
  | httpRequestContext (parent : Context) (startedAt : Time) (id : string)
      (r : http.Request)
  | muxVarsContext (parent : Context) (vars : gmap string string)
  | instrumentedResponseWriter (parent : Context) (irw : pointer).

Definition ErrNoRequestContext : error := OtherError "no http request in context".
Definition ErrNoResponseWriterContext : error := OtherError "no http response in context".

(** [strings.TrimPrefix] *)
Fixpoint drop_bytes (n : nat) (s : string) : string :=
  match n, s with
  | S n', String _ s' => drop_bytes n' s'
  | _, _ => s
  end.

Definition strings_TrimPrefix (s prefix : string) : string :=
  if String.prefix prefix s then drop_bytes (String.length prefix) s else s.

(** Addition on [int64] wraps around. *)
Definition wrap64 (z : Z) : Z := (z + 2 ^ 63) `mod` 2 ^ 64 - 2 ^ 63.

(** The fields of an [instrumentedResponseWriter] that change: the state
    of the writer it wraps, and the two statistics. *)
Record instrumented (RW : Type) := mkInstrumented {
  ResponseWriter : RW;
  status : Z;
  written : Z;
}.
Arguments mkInstrumented {RW}.
Arguments ResponseWriter {RW}.
Arguments status {RW}.
Arguments written {RW}.

(** The instrumented writers allocated so far. *)
Record heap (RW : Type) := mkHeap {
  next : pointer;
  cells : pointer → instrumented RW;
}.
Arguments mkHeap {RW}.
Arguments next {RW}.
Arguments cells {RW}.

Definition set_cell {RW} (h : heap RW) (irw : pointer) (c : instrumented RW) : heap RW :=
  mkHeap (next h) (λ p, if decide (p = irw) then c else cells h p).

(** [httpRequestContext.Value], over the [Value] of the embedded
    context.  A [case] that returns nothing leaves the [switch]. *)
Definition httpRequestContext_Value (requestutil_RemoteAddr : http.Request → string)
    (parent : key → value) (startedAt : Time) (id : string) (r : http.Request)
    (key : key) : value :=
  match key with
  | KString keyStr =>
      if decide (keyStr = "http.request") then VRequest r
      else if decide (keyStr = "http.request.uri") then VString (http.RequestURI r)
      else if decide (keyStr = "http.request.remoteaddr")
      then VString (requestutil_RemoteAddr r)
      else if decide (keyStr = "http.request.method") then VString (http.Method r)
      else if decide (keyStr = "http.request.host") then VString (http.Host r)
      else if decide (keyStr = "http.request.referer") then
        let referer := http.Referer r in
        if decide (referer ≠ "") then VString referer else parent key
      else if decide (keyStr = "http.request.useragent") then VString (http.UserAgent r)
      else if decide (keyStr = "http.request.id") then VString id
      else if decide (keyStr = "http.request.startedat") then VTime startedAt
      else if decide (keyStr = "http.request.contenttype") then
        let ct := http.Header_Get r "Content-Type" in
        if decide (ct ≠ "") then VString ct else parent key
      else parent key
  | KOther _ => parent key
  end.

(** [muxVarsContext.Value] *)
Definition muxVarsContext_Value (parent : key → value) (vars : gmap string string)
    (key : key) : value :=
  match key with
  | KString keyStr =>
      if decide (keyStr = "vars") then VVars vars
      else
        match vars !! strings_TrimPrefix keyStr "vars." with
        | Some v => VString v
        | None => parent key
        end
  | KOther _ => parent key
  end.

Section contexts.
Context {RW : Type} `{!http.ResponseWriter RW}.
Context {Σ : Type} `{!Collaborators Σ}.

(** [requestutil.RemoteAddr] and the package variable [getVarsFromRequest]
    are declared outside the embedded file. *)
Variable requestutil_RemoteAddr : http.Request → string.
Variable getVarsFromRequest : http.Request → gmap string string.

(** [instrumentedResponseWriter.Value], where [c] holds the fields of
    the writer [irw] points to. *)
Definition instrumentedResponseWriter_Value (parent : key → value) (irw : pointer)
    (c : instrumented RW) (key : key) : value :=
  match key with
  | KString keyStr =>
      if decide (keyStr = "http.response") then VResponseWriter (Instrumented irw)
      else if decide (keyStr = "http.response.written") then VInt64 (written c)
      else if decide (keyStr = "http.response.status") then VInt (status c)
      else if decide (keyStr = "http.response.contenttype") then
        let ct := http.Header (ResponseWriter c) "Content-Type" in
        if decide (ct ≠ "") then VString ct else parent key
      else parent key
  | KOther _ => parent key
  end.

(** The method [Value] of the interface, by the dynamic type of [ctx]. *)
Fixpoint Value (h : heap RW) (ctx : Context) (key : key) {struct ctx} : value :=
  match ctx with
  | Other f => f key
  | httpRequestContext parent startedAt id r =>
      httpRequestContext_Value requestutil_RemoteAddr (Value h parent) startedAt id r key
  | muxVarsContext parent vars => muxVarsContext_Value (Value h parent) vars key
  | instrumentedResponseWriter parent irw =>
      instrumentedResponseWriter_Value (Value h parent) irw (cells h irw) key
  end.

(** [WithRequest]: the fields of the new context are evaluated in the
    order they are written, the clock before the id. *)
Definition WithRequest (h : heap RW) (ctx : Context) (r : http.Request) : M Σ Context :=
  match Value h ctx (KString "http.request") with
  | Nil =>
      startedAt ← time_Now;
      id ← uuid_NewString;
      mret (httpRequestContext ctx startedAt id r)
  | _ => lift (Panic "only one request per context")
  end.

(** [WithResponseWriter]: the new writer is returned twice, as a context
    and as a response writer. *)
Definition WithResponseWriter (ctx : Context) (w : RW) (h : heap RW)
    : (Context * pointer) * heap RW :=
  let irw := next h in
  ((instrumentedResponseWriter ctx irw, irw),
   mkHeap (S irw)
     (λ p, if decide (p = irw) then mkInstrumented w 0 0 else cells h p)).

(** [GetResponseWriter] *)
Definition GetResponseWriter (h : heap RW) (ctx : Context) : result writer :=
  match Value h ctx (KString "http.response") with
  | VResponseWriter rw => Ok rw
  | _ => Err ErrNoResponseWriterContext
  end.

(** [WithVars] *)
Definition WithVars (ctx : Context) (r : http.Request) : Context :=
  muxVarsContext ctx (getVarsFromRequest r).

(** [instrumentedResponseWriter.Write] *)
Definition instrumentedResponseWriter_Write (irw : pointer) (p : string) (h : heap RW)
    : (Z * option error) * heap RW :=
  let c := cells h irw in
  let '((n, err), w) := http.Write p (ResponseWriter c) in
  let written' := wrap64 (written c + n) in
  let status' := if decide (status c = 0) then http.StatusOK else status c in
  ((n, err), set_cell h irw (mkInstrumented w status' written')).

(** [instrumentedResponseWriter.WriteHeader] *)
Definition instrumentedResponseWriter_WriteHeader (irw : pointer) (status : Z)
    (h : heap RW) : heap RW :=
  let c := cells h irw in
  let w := http.WriteHeader status (ResponseWriter c) in
  set_cell h irw (mkInstrumented w status (written c)).

(** [instrumentedResponseWriter.Flush] *)
Definition instrumentedResponseWriter_Flush (irw : pointer) (h : heap RW) : heap RW :=
  match http.Flusher with
  | Some Flush =>
      let c := cells h irw in
      set_cell h irw (mkInstrumented (Flush (ResponseWriter c)) (status c) (written c))
  | None => h
  end.
End contexts.
End dcontext.

(** ** Vocabulary of the properties *)

(** The line [linkedBlobStatter.Stat] logs for a cross-digest lookup. *)
Definition cross_digest_warning (dgst target : Digest) : list string :=
  if decide (target ≠ dgst)
  then ["looking up blob with canonical target: " +:+ dgst +:+ " -> " +:+ target]
  else [].

(** The calls [ServeBlob] makes after its access check: the content type
    is set when the descriptor carries one, then the blob is served. *)
Definition serve_header (canonical : Descriptor) : list Op :=
  if decide (v1.MediaType canonical ≠ "")
  then [OpHeaderSet "Content-Type" (v1.MediaType canonical)]
  else [].

(** The calls that begin an upload session: allocating an upload id,
    writing a file through the driver (the startedAt file), opening a
    writer. *)
Definition starts_upload (o : Op) : Prop :=
  match o with
  | OpNewString | OpPutContent _ _ | OpWriter _ _ => True
  | _ => False
  end.

(** The digests handed to the ingestor, read off the recorded calls. *)
Definition ingests (ops : list Op) : list Digest :=
  omap (λ o, match o with OpIngestor d => Some d | _ => None end) ops.

(** The entries [Enumerate] treats as links: files named "link". *)
Definition is_link (fileInfo : FileInfo) : Prop :=
  IsDir fileInfo = false ∧ (path_Split (Path fileInfo)).2 = "link".

Section vocabulary.
Context {Σ : Type} `{!Collaborators Σ}.

(** The collaborator state after the header of [ServeBlob] is set. *)
Definition after_header (canonical : Descriptor) (σ : Σ) : Σ :=
  if decide (v1.MediaType canonical ≠ "")
  then (handle (OpHeaderSet "Content-Type" (v1.MediaType canonical)) σ).2
  else σ.

(** [ops] are the link calls for the digests [linked], in order: one call
    per digest, at that digest's link path, writing [target]. *)
Definition links_of (lbs : linkedBlobStore.t Σ) (target : Digest)
    (linked : list Digest) (ops : list Op) : Prop :=
  Forall2 (λ d o, ∃ p,
    linkedBlobStore.linkPath lbs (linkedBlobStore.repository lbs) d = Ok p ∧
    o = OpLink p target) linked ops.

(** Where [mount] takes the source descriptor [stat] from, and the calls
    [pre] that costs: the descriptor supplied by the caller, or else the
    answer of the source repository's blob statter for [dgst]. *)
Definition source_stat (sourceRepo : Canonical) (dgst : Digest)
    (sourceStat : option Descriptor) (σ : Σ) (stat : Descriptor) (pre : list Op) : Prop :=
  match sourceStat with
  | Some given => stat = given ∧ pre = []
  | None =>
      ∃ repo σ1 σ2,
        handle (OpRepository sourceRepo) σ = (Ok repo, σ1) ∧
        handle (OpRepositoryStat repo dgst) σ1 = (Ok stat, σ2) ∧
        pre = [OpRepository sourceRepo; OpRepositoryStat repo dgst]
  end.

(** The caller's callback, as a recorded call. *)
Definition ingestor_call (dgst : Digest) : M Σ unit := call (OpIngestor dgst).

(** A walk over a link tree in which every link either resolves or is
    stale: [clean_walk lbs steps w ds w'] runs from world [w] to [w'] over
    entries that are not links, links whose digest [Stat] does not know
    ([ErrBlobUnknown]), and links whose digest [Stat] resolves and the
    ingestor accepts; [ds] lists the digests of the latter, in order. *)
Inductive clean_walk (lbs : linkedBlobStore.t Σ) :
    list WalkStep → World Σ → list Digest → World Σ → Prop :=
| walk_done w :
    clean_walk lbs [] w [] w
| walk_other fileInfo rest w ds w' :
    ¬ is_link fileInfo →
    clean_walk lbs rest w ds w' →
    clean_walk lbs (Visit fileInfo :: rest) w ds w'
| walk_stale fileInfo rest w d w1 w2 ds w' :
    is_link fileInfo →
    blobStore_readlink (Path fileInfo) w = (Ok d, w1) →
    linkedBlobStore.Stat lbs d w1 = (Err ErrBlobUnknown, w2) →
    clean_walk lbs rest w2 ds w' →
    clean_walk lbs (Visit fileInfo :: rest) w ds w'
| walk_resolved fileInfo rest w d w1 desc w2 w3 ds w' :
    is_link fileInfo →
    blobStore_readlink (Path fileInfo) w = (Ok d, w1) →
    linkedBlobStore.Stat lbs d w1 = (Ok desc, w2) →
    ingestor_call d w2 = (Ok tt, w3) →
    clean_walk lbs rest w3 ds w' →
    clean_walk lbs (Visit fileInfo :: rest) w (d :: ds) w'.

(** The ways one step ends a walk: [step_fails lbs step w offered e w']
    says the step, started in [w], fails with [e] in [w'], having handed
    the digests [offered] to the ingestor. *)
Inductive step_fails (lbs : linkedBlobStore.t Σ) :
    WalkStep → World Σ → list Digest → error → World Σ → Prop :=
| fails_walk e w :
    step_fails lbs (WalkFails e) w [] (DriverError e) w
| fails_readlink fileInfo w e w1 :
    is_link fileInfo →
    blobStore_readlink (Path fileInfo) w = (Err e, w1) →
    step_fails lbs (Visit fileInfo) w [] e w1
| fails_Stat fileInfo w d w1 e w2 :
    is_link fileInfo →
    blobStore_readlink (Path fileInfo) w = (Ok d, w1) →
    linkedBlobStore.Stat lbs d w1 = (Err e, w2) →
    e ≠ ErrBlobUnknown →
    step_fails lbs (Visit fileInfo) w [] e w2
| fails_ingestor fileInfo w d w1 desc w2 e w3 :
    is_link fileInfo →
    blobStore_readlink (Path fileInfo) w = (Ok d, w1) →
    linkedBlobStore.Stat lbs d w1 = (Ok desc, w2) →
    ingestor_call d w2 = (Err e, w3) →
    step_fails lbs (Visit fileInfo) w [d] e w3.

(** The links of a walk as the specification sorts them, by the target
    digest alone, in the state [σ] of the collaborators:
    [targets_known σ steps ds] says every link among [steps] holds a
    digest that the global statter either knows or reports unknown, and
    [ds] lists the digests it knows, in walk order. *)
Inductive targets_known (σ : Σ) : list WalkStep → list Digest → Prop :=
| targets_done :
    targets_known σ [] []
| targets_other fileInfo rest ds :
    ¬ is_link fileInfo →
    targets_known σ rest ds →
    targets_known σ (Visit fileInfo :: rest) ds
| targets_unknown fileInfo rest d ds :
    is_link fileInfo →
    (handle (OpReadlink (Path fileInfo)) σ).1 = Ok d →
    (handle (OpStatterStat d) σ).1 = Err ErrBlobUnknown →
    targets_known σ rest ds →
    targets_known σ (Visit fileInfo :: rest) ds
| targets_resolved fileInfo rest d desc ds :
    is_link fileInfo →
    (handle (OpReadlink (Path fileInfo)) σ).1 = Ok d →
    (handle (OpStatterStat d) σ).1 = Ok desc →
    targets_known σ rest ds →
    targets_known σ (Visit fileInfo :: rest) (d :: ds).

(** The claim, as the specification words it: over a link tree whose links
    hold digests that are globally known or globally unknown, [Enumerate]
    returns no error and hands the ingestor exactly the known ones. *)
Definition ingests_known_targets (lbs : linkedBlobStore.t Σ) (w : World Σ) : Prop :=
  ∀ rootPath steps σ1 ds,
    pathFor (linkedBlobStore.linkDirectoryPathSpec lbs) = inr rootPath →
    handle (OpWalk rootPath) (ext w) = (steps, σ1) →
    targets_known σ1 steps ds →
    ∃ w', linkedBlobStore.Enumerate lbs ingestor_call w = (Ok tt, w') ∧
          ingests (calls w') = ingests (calls w) ++ ds.

End vocabulary.

Section purge_vocabulary.
Import purge.
Variable parse : string → option Z.

(** The session [d] has a startedAt file that parses to [t]. *)
Definition started (st : Storage) (d : list string) (t : Z) : Prop :=
  ∃ content, files st !! (d ++ ["startedat"]) = Some content ∧ parse content = Some t.

(** What the gathering pass adds for one session directory. *)
Definition gathered (st : Storage) (d : list string) : list uploadData :=
  match files st !! (d ++ ["startedat"]) with
  | Some content =>
      match parse content with Some t => [mkUploadData d t] | None => [] end
  | None => []
  end.

Definition gather_errors (st : Storage) (d : list string) : list purge_error :=
  match files st !! (d ++ ["startedat"]) with
  | Some content =>
      match parse content with Some _ => [] | None => [BadTimestamp d] end
  | None => []
  end.

(** What the deleting pass adds for one gathered session, given the
    directories the driver refuses to delete. *)
Definition removed (olderThan : Z) (actuallyDelete : bool)
    (U : gset (list string)) (u : uploadData) : list (list string) :=
  if decide (startedAt u < olderThan)
  then if actuallyDelete && bool_decide (containingDir u ∈ U) then [] else [containingDir u]
  else [].

Definition removal_errors (olderThan : Z) (actuallyDelete : bool)
    (U : gset (list string)) (u : uploadData) : list purge_error :=
  if decide (startedAt u < olderThan)
  then if actuallyDelete && bool_decide (containingDir u ∈ U)
       then [DeleteFailed (containingDir u)] else []
  else [].

(** A session is stale for the cutoff [olderThan] when it has a startedAt
    file whose recorded start time is earlier. *)
Definition stale (st : Storage) (olderThan : Z) (d : list string) : Prop :=
  d ∈ sessions st ∧ ∃ t, started st d t ∧ t < olderThan.


End purge_vocabulary.

(** A call on an instrumented response writer. *)
Inductive writer_call :=
  | Writes (p : string)
  | WritesHeader (status : Z)
  | Flushes.

Definition is_write (c : writer_call) : bool :=
  match c with Writes _ => true | _ => false end.

Definition is_header (c : writer_call) : bool :=
  match c with WritesHeader _ => true | _ => false end.

(** The contexts of the file that carry a request, themselves or through
    the contexts they embed. *)
Fixpoint carries_request (ctx : dcontext.Context) : bool :=
  match ctx with
  | dcontext.Other _ => false
  | dcontext.httpRequestContext _ _ _ _ => true
  | dcontext.muxVarsContext parent _ => carries_request parent
  | dcontext.instrumentedResponseWriter parent _ => carries_request parent
  end.

Section response_vocabulary.
Context {RW : Type} `{!http.ResponseWriter RW}.

(** The heap after a call, and after a sequence of calls, on the writer
    [irw]. *)
Definition after_call (irw : dcontext.pointer) (c : writer_call) (h : dcontext.heap RW)
    : dcontext.heap RW :=
  match c with
  | Writes p => (dcontext.instrumentedResponseWriter_Write irw p h).2
  | WritesHeader status => dcontext.instrumentedResponseWriter_WriteHeader irw status h
  | Flushes => dcontext.instrumentedResponseWriter_Flush irw h
  end.

Definition after_calls (irw : dcontext.pointer) (cs : list writer_call)
    (h : dcontext.heap RW) : dcontext.heap RW :=
  foldl (λ h c, after_call irw c h) h cs.

(** The counts the writes of a sequence of calls return, in order. *)
Fixpoint reported (irw : dcontext.pointer) (cs : list writer_call) (h : dcontext.heap RW)
    : list Z :=
  match cs with
  | [] => []
  | c :: cs' =>
      match c with
      | Writes p => [(dcontext.instrumentedResponseWriter_Write irw p h).1.1]
      | _ => []
      end ++ reported irw cs' (after_call irw c h)
  end.

(** The wrapped writer on its own: its state after a call, and the counts
    its writes return over a sequence of calls. *)
Definition wrapped_after (c : writer_call) (rw : RW) : RW :=
  match c with
  | Writes p => (http.Write p rw).2
  | WritesHeader status => http.WriteHeader status rw
  | Flushes => match http.Flusher with Some Flush => Flush rw | None => rw end
  end.

Fixpoint wrapped_counts (cs : list writer_call) (rw : RW) : list Z :=
  match cs with
  | [] => []
  | c :: cs' =>
      match c with
      | Writes p => [(http.Write p rw).1.1]
      | _ => []
      end ++ wrapped_counts cs' (wrapped_after c rw)
  end.
End response_vocabulary.

Definition total_of (counts : list Z) : Z := foldr Z.add 0 counts.

(** ** A small registry on the in-memory collaborators *)

Module example.
Import inmemory.

Definition layer : Digest := "sha256:1f".
Definition layer_alias : Digest := "sha512:9c".
Definition base_only : Digest := "sha256:2e".
Definition swept : Digest := "sha256:dead".

(** Repository "library/app" links [layer] under its own digest and under
    [layer_alias], and still links [swept], whose blob is gone;
    "library/base" links [base_only]. *)
Definition populated : state :=
  mk [ (root +:+ "library/app/_layers/sha256:1f/link", layer);
       (root +:+ "library/app/_layers/sha256:dead/link", swept);
       (root +:+ "library/app/_layers/sha512:9c/link", layer);
       (root +:+ "library/app/_uploads/upload-7/startedat", "940");
       (root +:+ "library/app/_uploads/upload-8/startedat", "yesterday");
       (root +:+ "library/base/_layers/sha256:2e/link", base_only) ]
     [ (layer, "hello"); (base_only, "layer-two") ]
     0 1000 [] [].

Definition statter : linkedBlobStatter.t :=
  linkedBlobStatter.mk "library/app" linkedBlobStatter.blobLinkPath.

Definition store (deleteEnabled : bool) : linkedBlobStore.t state :=
  linkedBlobStore.mk (linkedBlobStatter.service statter) "library/app"
    deleteEnabled false linkedBlobStatter.blobLinkPath
    (linkDirectorySpec "library/app" "_layers").

Definition w0 : World state := world populated.

(** The link path of a digest in "library/app", and the startedAt path of
    an upload there. *)
Definition link_of (dgst : Digest) : string :=
  root +:+ "library/app/_layers/" +:+ dgst +:+ "/link".

Definition startedat_of (id : string) : string :=
  root +:+ "library/app/_uploads/" +:+ id +:+ "/startedat".

Definition octets (dgst : Digest) (size : Z) : Descriptor :=
  v1.mkDescriptor "application/octet-stream" dgst size.

Definition from_base : Canonical := reference.mkCanonical "library/base" base_only.

(** The link directory of "library/app" and the entries a walk of it
    yields. *)
Definition layers_root : string := root +:+ "library/app/_layers".

Definition layers_walk : list WalkStep :=
  [ Visit (mkFileInfo (link_of layer) false);
    Visit (mkFileInfo (link_of swept) false);
    Visit (mkFileInfo (link_of layer_alias) false) ].

(** Timestamps in whole seconds, for the purger. *)
Definition parse_seconds (content : string) : option Z :=
  match time_Parse content with inr t => Some t | inl _ => None end.

Definition old_session : list string :=
  ["v2"; "repositories"; "library"; "test-repo"; "_uploads"; "u1"].

Definition new_session : list string :=
  ["v2"; "repositories"; "test-repo"; "_uploads"; "u2"].

Definition headless_session : list string :=
  ["v2"; "repositories"; "test-repo"; "_uploads"; "u3"].

Definition important_file : list string :=
  ["v2"; "repositories"; "test-repo"; "_importants"; "u4"; "file"].

(** An upload started at 10, one started at 90, one that lost its
    startedAt file, and a look-alike tree outside [_uploads]. *)
Definition upload_files : gmap (list string) string :=
  {[ old_session ++ ["data"] := "";
     old_session ++ ["startedat"] := "10";
     new_session ++ ["data"] := "";
     new_session ++ ["startedat"] := "90";
     headless_session ++ ["data"] := "";
     important_file := "";
     ["v2"; "repositories"; "test-repo"; "_importants"; "u4"; "startedat"] := "10" ]}.

Definition uploads_fs : purge.Storage := purge.mkStorage upload_files ∅.

(** The same files on a driver that refuses to delete the old session. *)
Definition refusing_fs : purge.Storage := purge.mkStorage upload_files {[ old_session ]}.

(** The same registry seen by a caller whose ingestor refuses [layer]. *)
Definition refusing : World state :=
  world (mk (files populated) (blobs populated) 0 1000 [] [layer]).

(** The world a mount of [base_only] from "library/base" leaves. *)
Definition mounted_world : World state :=
  (linkedBlobStore.mount (store false) from_base base_only None
     (mkWorld populated [] ["(*linkedBlobStore).Create"])).2.

(** A source descriptor with a media type of its own. *)
Definition gzip_layer : Descriptor :=
  v1.mkDescriptor "application/vnd.oci.image.layer.v1.tar+gzip" base_only 42.

Definition gzip_mounted_world : World state :=
  (linkedBlobStore.mount (store false) from_base base_only (Some gzip_layer) w0).2.

(** A source the registry knows, "library/base", named with a digest it
    does not link. *)
Definition stranger : Canonical := reference.mkCanonical "library/base" layer.

(** The data path of an upload in "library/app". *)
Definition data_of (id : string) : string :=
  root +:+ "library/app/_uploads/" +:+ id +:+ "/data".

(** The registry after [uploads] upload ids were handed out, on a driver
    that fails at the paths [broken]. *)
Definition registry (uploads : nat) (broken : list string) : state :=
  mk (files populated) (blobs populated) uploads 1000 broken [].

(** The state once the startedAt file of "upload-0" is written. *)
Definition with_startedat (σ : state) : state :=
  with_files σ (put (files σ) (startedat_of "upload-0") (time_Format 1000)).

(** The upload the first [Create] on the registry returns, the world that
    [Create] leaves, and the same after a mount from [stranger] failed. *)
Definition upload0 : blobWriter.t :=
  blobWriter.mk "upload-0" 1000 0 (data_of "upload-0") false.

Definition created_world : World state :=
  (linkedBlobStore.Create (store false) [] w0).2.

Definition created_after_mount : World state :=
  (linkedBlobStore.Create (store false) [linkedBlobStore.WithMountFrom stranger] w0).2.

(** An option of a caller that names the source and supplies its
    descriptor, and an option that refuses the options it is given. *)
Definition mount_with_stat (ref : Canonical) (stat : Descriptor) : BlobCreateOption :=
  λ _, Ok (CreateOptions.mk (CreateOptions.mkMount true (Some ref) (Some stat))).

Definition refusing_option : BlobCreateOption :=
  λ _, Err (OtherError "unexpected options type").

(** The registry once the link of [layer_alias] is removed. *)
Definition unlinked : state :=
  with_files populated (remove (files populated) (link_of layer_alias)).

(** "library/app" with one more link, filed under [foreign] and holding
    [base_only]: the blob exists, but the repository has no link filed
    under [base_only] itself. *)
Definition foreign : Digest := "sha512:77".

Definition with_foreign_link : state :=
  with_files populated (put (files populated) (link_of foreign) base_only).

(** A link-backed statter whose link paths cannot be resolved. *)
Definition pathless : linkedBlobStatter.t :=
  linkedBlobStatter.mk "library/app" (λ _ _, Err (PathError "invalid digest")).

(** Two global stores for [Put]: one that files the bytes under a digest
    of its own making and reports it, and one that is full. *)
Definition stored_digest (p : string) : Digest := "sha256:" +:+ p.

Definition store_Put (mediaType p : string) : M state Descriptor :=
  λ w, (Ok (v1.mkDescriptor mediaType (stored_digest p) (Z.of_nat (String.length p))),
        mkWorld (mk (files (ext w)) ((stored_digest p, p) :: blobs (ext w)) (uploads (ext w))
                   (clock (ext w)) (faulty (ext w)) (rejected (ext w)))
          (calls w) (logged w)).

Definition full_Put (mediaType p : string) : M state Descriptor :=
  fail (OtherError "no space left").

Definition put_world : World state :=
  (store_Put "text/plain" "1f" w0).2.

End example.

(** ** A response writer and a request for the contexts *)

(** A response writer with room for a number of bytes: a write takes what
    fits and reports a short write when something is left over. *)
Module recorder.
Record t := mk {
  room : nat;
  code : Z;
  content_type : string;
  flushes : nat;
}.

Definition take (p : string) (rw : t) : (Z * option error) * t :=
  let n := Nat.min (String.length p) (room rw) in
  ((Z.of_nat n,
    if decide (n < String.length p)%nat then Some (OtherError "short write") else None),
   mk (room rw - n) (code rw) (content_type rw) (flushes rw)).

#[global] Instance writer : http.ResponseWriter t :=
  http.Build_ResponseWriter t
    (λ rw k, if decide (k = "Content-Type") then content_type rw else "")
    take
    (λ status rw, mk (room rw) status (content_type rw) (flushes rw))
    (Some (λ rw, mk (room rw) (code rw) (content_type rw) (S (flushes rw)))).
End recorder.

Module request_example.
Import dcontext.

(** [context.Background()]: no key has a value. *)
Definition background : Context := Other (λ _, Nil).

(** A pull of a blob, with no referer and no content type. *)
Definition pull : http.Request :=
  http.mkRequest "/v2/library/app/blobs/sha256:1f" "GET" "registry.example" ""
    "docker/24.0" (λ _, "").

Definition remote (r : http.Request) : string := "192.0.2.7".

(** The route variables of the pull. *)
Definition route : gmap string string :=
  {[ "name" := "library/app"; "digest" := "sha256:1f" ]}.

(** No instrumented writer allocated, then one over a writer with room for
    eight bytes. *)
Definition no_writers : heap recorder.t :=
  mkHeap 0%nat (λ _, mkInstrumented (recorder.mk 0 0 "" 0) 0 0).

Definition one_writer : heap recorder.t :=
  (WithResponseWriter background (recorder.mk 8 0 "" 0) no_writers).2.

(** A request context under route variables and an instrumented writer. *)
Definition serving : Context :=
  instrumentedResponseWriter
    (muxVarsContext (httpRequestContext background 1000 "upload-0" pull) route) 0%nat.
End request_example.

(** * Properties *)

(** ** Stepping through the monad *)

Section steps.
Context {Σ : Type} `{!Collaborators Σ}.

Lemma call_inv (o : Op) (w : World Σ) x w' :
  call o w = (x, w') →
  handle o (ext w) = (x, ext w') ∧ calls w' = calls w ++ [o] ∧ logged w' = logged w.
Proof.
  unfold call. destruct (handle o (ext w)) as [y σ]. intros [= <- <-]. done.
Qed.

Lemma bind_Ok {A B} (m : M Σ A) (f : A → M Σ B) w a w' :
  m w = (Ok a, w') → (m ≫= f) w = f a w'.
Proof. intros H. unfold mbind, M_bind. by rewrite H. Qed.

Lemma bind_Err {A B} (m : M Σ A) (f : A → M Σ B) w e w' :
  m w = (Err e, w') → (m ≫= f) w = (Err e, w').
Proof. intros H. unfold mbind, M_bind. by rewrite H. Qed.

End steps.

(** Unfold the monad and the collaborator wrappers down to [handle]. *)
Ltac run :=
  unfold pathFor_, blobStore_readlink, blobStore_link, statter_Stat, blobStore_Get,
    blobStore_Open, Header_Set, blobServer_ServeBlob, driver_GetContent,
    driver_PutContent, driver_Delete, driver_Writer, uuid_NewString, time_Now,
    registry_Repository, repo_Blobs_Stat in *;
  unfold mbind, M_bind, mret, M_ret, attempt, fail, lift, total, driver, log,
    call in *;
  cbn [fst snd ext calls logged] in *.

Section statter.
Context {Σ : Type} `{!Collaborators Σ}.

(** What [linkedBlobStatter.Stat] does once the link has been read. *)
Lemma statter_Stat_link_read (lbs : linkedBlobStatter.t) (dgst : Digest)
    (w : World Σ) p target σ1 r σ2 :
  linkedBlobStatter.linkPath lbs (linkedBlobStatter.repository lbs) dgst = Ok p →
  handle (OpReadlink p) (ext w) = (Ok target, σ1) →
  handle (OpStatterStat target) σ1 = (r, σ2) →
  linkedBlobStatter.Stat lbs dgst w =
    (r, mkWorld σ2 (calls w ++ [OpReadlink p; OpStatterStat target])
          (logged w ++ cross_digest_warning dgst target)).
Proof.
  intros Hp Hl Hs. unfold linkedBlobStatter.Stat, cross_digest_warning. run.
  rewrite Hp, Hl. cbn.
  destruct (decide (target ≠ dgst)); cbn; rewrite Hs, <- app_assoc; cbn;
    [| rewrite app_nil_r]; by destruct r.
Qed.

(** What it does when reading the link reports path-not-found. *)
Lemma statter_Stat_link_absent (lbs : linkedBlobStatter.t) (dgst : Digest)
    (w : World Σ) p q σ1 :
  linkedBlobStatter.linkPath lbs (linkedBlobStatter.repository lbs) dgst = Ok p →
  handle (OpReadlink p) (ext w) = (Err (DriverError (PathNotFoundError q)), σ1) →
  linkedBlobStatter.Stat lbs dgst w =
    (Err ErrBlobUnknown, mkWorld σ1 (calls w ++ [OpReadlink p]) (logged w)).
Proof.
  intros Hp Hl. unfold linkedBlobStatter.Stat. run. by rewrite Hp, Hl.
Qed.

(** C4. [linkedBlobStatter.Stat] on a digest [dgst] whose link path is [p]:
    when reading the link reports path-not-found it fails with
    [ErrBlobUnknown], having called nothing but the read; when the link
    holds [target], equal to [dgst] or not, the outcome is the global
    statter's answer for [target], after exactly the two calls
    [readlink p] and [statter.Stat target] (a differing target only adds a
    log line); and every descriptor it returns is the global statter's
    answer for the link's target. *)
Theorem statter_Stat_follows_link (lbs : linkedBlobStatter.t) (dgst : Digest)
    (w : World Σ) (p : string) :
  linkedBlobStatter.linkPath lbs (linkedBlobStatter.repository lbs) dgst = Ok p →
  (∀ q σ1, handle (OpReadlink p) (ext w) = (Err (DriverError (PathNotFoundError q)), σ1) →
     linkedBlobStatter.Stat lbs dgst w =
       (Err ErrBlobUnknown, mkWorld σ1 (calls w ++ [OpReadlink p]) (logged w)))
  ∧ (∀ target σ1 r σ2,
       handle (OpReadlink p) (ext w) = (Ok target, σ1) →
       handle (OpStatterStat target) σ1 = (r, σ2) →
       linkedBlobStatter.Stat lbs dgst w =
         (r, mkWorld σ2 (calls w ++ [OpReadlink p; OpStatterStat target])
               (logged w ++ cross_digest_warning dgst target)))
  ∧ (∀ desc w', linkedBlobStatter.Stat lbs dgst w = (Ok desc, w') →
       ∃ target σ1,
         handle (OpReadlink p) (ext w) = (Ok target, σ1) ∧
         handle (OpStatterStat target) σ1 = (Ok desc, ext w') ∧
         calls w' = calls w ++ [OpReadlink p; OpStatterStat target]).
Proof.
  intros Hp. split_and!.
  - intros q σ1. by apply statter_Stat_link_absent.
  - intros target σ1 r σ2. by apply statter_Stat_link_read.
  - intros desc w' HS.
    destruct (handle (OpReadlink p) (ext w)) as [[target|e|msg] σ1] eqn:Hl.
    + destruct (handle (OpStatterStat target) σ1) as [r σ2] eqn:Hs.
      rewrite (statter_Stat_link_read _ _ _ _ _ _ _ _ Hp Hl Hs) in HS.
      injection HS as -> <-. by exists target, σ1.
    + exfalso. revert HS. unfold linkedBlobStatter.Stat. run. rewrite Hp, Hl.
      by destruct e as [| | | | [|] | | |].
    + exfalso. revert HS. unfold linkedBlobStatter.Stat. run. by rewrite Hp, Hl.
Qed.
End statter.

Section store.
Context {Σ : Type} `{!Collaborators Σ}.

(** A store whose access controller is the link-backed statter finds no
    link: the access check fails with [ErrBlobUnknown] after the read. *)
Lemma Stat_link_absent (lbs : linkedBlobStore.t Σ) st (dgst : Digest) (w : World Σ) p q σ1 :
  linkedBlobStore.blobAccessController lbs = linkedBlobStatter.service st →
  linkedBlobStatter.linkPath st (linkedBlobStatter.repository st) dgst = Ok p →
  handle (OpReadlink p) (ext w) = (Err (DriverError (PathNotFoundError q)), σ1) →
  linkedBlobStore.Stat lbs dgst w =
    (Err ErrBlobUnknown, mkWorld σ1 (calls w ++ [OpReadlink p]) (logged w)).
Proof.
  intros Hc Hp Hl. unfold linkedBlobStore.Stat. rewrite Hc. cbn.
  by apply (statter_Stat_link_absent st dgst w p q).
Qed.

(** C3. [Get], [Open] and [ServeBlob] on a digest [dgst] begin with
    [Stat dgst].  When [Stat] fails they return its error in the world
    [Stat] left, so nothing is read; in particular, with the link-backed
    statter and no link for [dgst], they fail with [ErrBlobUnknown] after
    the single call that looked for the link.  When [Stat] returns the
    descriptor [canonical], the one call into the global store that
    follows is keyed by [canonical]'s digest, whatever [dgst] was, and its
    answer is the result. *)
Theorem Get_Open_ServeBlob_read_canonical (lbs : linkedBlobStore.t Σ)
    (dgst : Digest) (w : World Σ) :
  (∀ e w1, linkedBlobStore.Stat lbs dgst w = (Err e, w1) →
     linkedBlobStore.Get lbs dgst w = (Err e, w1) ∧
     linkedBlobStore.Open lbs dgst w = (Err e, w1) ∧
     linkedBlobStore.ServeBlob lbs dgst w = (Err e, w1))
  ∧ (∀ st p q σ1,
       linkedBlobStore.blobAccessController lbs = linkedBlobStatter.service st →
       linkedBlobStatter.linkPath st (linkedBlobStatter.repository st) dgst = Ok p →
       handle (OpReadlink p) (ext w) = (Err (DriverError (PathNotFoundError q)), σ1) →
       let w1 := mkWorld σ1 (calls w ++ [OpReadlink p]) (logged w) in
       linkedBlobStore.Get lbs dgst w = (Err ErrBlobUnknown, w1) ∧
       linkedBlobStore.Open lbs dgst w = (Err ErrBlobUnknown, w1) ∧
       linkedBlobStore.ServeBlob lbs dgst w = (Err ErrBlobUnknown, w1))
  ∧ (∀ canonical w1, linkedBlobStore.Stat lbs dgst w = (Ok canonical, w1) →
       (∀ r σ2, handle (OpBlobGet (v1.Digest canonical)) (ext w1) = (r, σ2) →
          linkedBlobStore.Get lbs dgst w =
            (r, mkWorld σ2 (calls w1 ++ [OpBlobGet (v1.Digest canonical)]) (logged w1))) ∧
       (∀ r σ2, handle (OpBlobOpen (v1.Digest canonical)) (ext w1) = (r, σ2) →
          linkedBlobStore.Open lbs dgst w =
            (r, mkWorld σ2 (calls w1 ++ [OpBlobOpen (v1.Digest canonical)]) (logged w1))) ∧
       (∀ r σ2,
          handle (OpServeBlob (v1.Digest canonical)) (after_header canonical (ext w1)) = (r, σ2) →
          linkedBlobStore.ServeBlob lbs dgst w =
            (r, mkWorld σ2
                  (calls w1 ++ serve_header canonical ++ [OpServeBlob (v1.Digest canonical)])
                  (logged w1)))).
Proof.
  assert (Hfail : ∀ e w1, linkedBlobStore.Stat lbs dgst w = (Err e, w1) →
     linkedBlobStore.Get lbs dgst w = (Err e, w1) ∧
     linkedBlobStore.Open lbs dgst w = (Err e, w1) ∧
     linkedBlobStore.ServeBlob lbs dgst w = (Err e, w1)).
  { intros e w1 HS.
    unfold linkedBlobStore.Get, linkedBlobStore.Open, linkedBlobStore.ServeBlob.
    by rewrite !(bind_Err _ _ _ _ _ HS). }
  split_and!.
  - done.
  - intros st p q σ1 Hc Hp Hl w1. apply Hfail. by eapply Stat_link_absent.
  - intros canonical w1 HS. split_and!; intros r σ2 Hr.
    + unfold linkedBlobStore.Get. rewrite (bind_Ok _ _ _ _ _ HS).
      run. by rewrite Hr.
    + unfold linkedBlobStore.Open. rewrite (bind_Ok _ _ _ _ _ HS).
      run. by rewrite Hr.
    + unfold linkedBlobStore.ServeBlob. rewrite (bind_Ok _ _ _ _ _ HS).
      revert Hr. unfold after_header, serve_header.
      destruct (decide (v1.MediaType canonical ≠ "")); run; intros Hr.
      * destruct (handle (OpHeaderSet _ _) (ext w1)) as [[] σh]. cbn in *.
        rewrite Hr, <- app_assoc. by destruct r.
      * by rewrite Hr.
Qed.

(** C7. [Delete] with deletion disabled fails with [ErrUnsupported] and
    leaves the world as it was: no call is made.  With deletion enabled it
    stats [dgst] first: a failing [Stat] is the outcome and [Clear] is not
    run, so a digest with no link in the repository is refused with
    [ErrBlobUnknown] after the one read that looked for the link; only
    after a successful [Stat] is [Clear] run, and its outcome is
    [Delete]'s. *)
Theorem Delete_checks_before_clearing (lbs : linkedBlobStore.t Σ)
    (dgst : Digest) (w : World Σ) :
  (linkedBlobStore.deleteEnabled lbs = false →
     linkedBlobStore.Delete lbs dgst w = (Err ErrUnsupported, w))
  ∧ (linkedBlobStore.deleteEnabled lbs = true →
     (∀ e w1,
        distribution.Stat (linkedBlobStore.blobAccessController lbs) dgst w = (Err e, w1) →
        linkedBlobStore.Delete lbs dgst w = (Err e, w1))
     ∧ (∀ st p q σ1,
          linkedBlobStore.blobAccessController lbs = linkedBlobStatter.service st →
          linkedBlobStatter.linkPath st (linkedBlobStatter.repository st) dgst = Ok p →
          handle (OpReadlink p) (ext w) = (Err (DriverError (PathNotFoundError q)), σ1) →
          linkedBlobStore.Delete lbs dgst w =
            (Err ErrBlobUnknown, mkWorld σ1 (calls w ++ [OpReadlink p]) (logged w)))
     ∧ (∀ desc w1 r w2,
          distribution.Stat (linkedBlobStore.blobAccessController lbs) dgst w = (Ok desc, w1) →
          distribution.Clear (linkedBlobStore.blobAccessController lbs) dgst w1 = (r, w2) →
          linkedBlobStore.Delete lbs dgst w = (r, w2))).
Proof.
  split.
  - intros Hd. unfold linkedBlobStore.Delete. by rewrite Hd.
  - intros Hd.
    assert (Hfail : ∀ e w1,
        distribution.Stat (linkedBlobStore.blobAccessController lbs) dgst w = (Err e, w1) →
        linkedBlobStore.Delete lbs dgst w = (Err e, w1)).
    { intros e w1 HS. unfold linkedBlobStore.Delete. rewrite Hd. cbn.
      by rewrite (bind_Err _ _ _ _ _ HS). }
    split_and!.
    + done.
    + intros st p q σ1 Hc Hp Hl. apply Hfail.
      by apply (Stat_link_absent lbs st dgst w p q σ1).
    + intros desc w1 r w2 HS HC. unfold linkedBlobStore.Delete. rewrite Hd. cbn.
      rewrite (bind_Ok _ _ _ _ _ HS). unfold mbind, M_bind. rewrite HC.
      by destruct r as [[]| |].
Qed.
End store.

(** ** Linking and mounting *)

(** Close the side goals of a loop that stopped early. *)
Ltac close_links :=
  first
    [ done
    | by (repeat constructor; eauto)
    | by apply NoDup_nil_2
    | by apply NoDup_singleton
    | by intros ? ?%elem_of_nil
    | by intros ? ->%list_elem_of_singleton; split; [left |] ].

Section linking.
Context {Σ : Type} `{!Collaborators Σ}.

(** The loop of [linkBlob], from any set of digests already seen. *)
Lemma linkBlob_loop_calls (lbs : linkedBlobStore.t Σ) (canonical : Descriptor)
    (dgsts : list Digest) :
  ∀ (seenDigests : gset Digest) (w : World Σ),
  ∃ linked ops,
    let out := linkedBlobStore.linkBlob_loop lbs canonical dgsts seenDigests w in
    calls out.2 = calls w ++ ops ∧
    logged out.2 = logged w ∧
    links_of lbs (v1.Digest canonical) linked ops ∧
    NoDup linked ∧
    (∀ d, d ∈ linked → d ∈ dgsts ∧ d ∉ seenDigests) ∧
    (out.1 = Ok tt → ∀ d, d ∈ dgsts → d ∈ seenDigests ∨ d ∈ linked).
Proof.
  induction dgsts as [|dgst rest IH]; intros seen w; cbn.
  - exists [], []. rewrite app_nil_r. split_and!; close_links.
  - destruct (decide (dgst ∈ seen)) as [Hseen|Hnew].
    + destruct (IH seen w) as (linked & ops & Hc & Hl & Hf & Hnd & Hin & Hall).
      exists linked, ops. split_and!; try done.
      * intros d Hd. destruct (Hin d Hd). split; [by right | done].
      * intros Hok d [->|Hd]%elem_of_cons; [by left | by apply Hall].
    + run.
      destruct (linkedBlobStore.linkPath lbs (linkedBlobStore.repository lbs) dgst)
        as [p|e|msg] eqn:Hp; cbn.
      2,3: exists [], []; rewrite app_nil_r; split_and!; close_links.
      destruct (handle (OpLink p (v1.Digest canonical)) (ext w)) as [r σ1] eqn:Hlink.
      destruct r as [[]|e|msg]; cbn.
      2,3: exists [dgst], [OpLink p (v1.Digest canonical)]; split_and!; close_links.
      destruct (IH ({[dgst]} ∪ seen)
                  (mkWorld σ1 (calls w ++ [OpLink p (v1.Digest canonical)]) (logged w)))
        as (linked & ops & Hc & Hl & Hf & Hnd & Hin & Hall).
      cbn in *.
      exists (dgst :: linked), (OpLink p (v1.Digest canonical) :: ops). split_and!.
      * rewrite Hc, <- app_assoc. done.
      * done.
      * constructor; [by exists p | done].
      * constructor; [| done]. intros Hd. destruct (Hin _ Hd) as [_ Hns].
        apply Hns, elem_of_union. left. by apply elem_of_singleton.
      * intros d [->|Hd]%elem_of_cons; [split; [by left | done] |].
        destruct (Hin d Hd) as [? Hns]. split; [by right |].
        intros Hs. apply Hns, elem_of_union. by right.
      * intros Hok d [->|Hd]%elem_of_cons; [right; by left |].
        destruct (Hall Hok d Hd) as [Hs|Hs]; [| right; by right].
        apply elem_of_union in Hs as [->%elem_of_singleton|Hs]; [right; by left | by left].
Qed.

(** C10. The calls [linkBlob] adds are link calls only, one for each digest
    of a duplicate-free list [linked] drawn from the canonical digest and
    the aliases, each at that digest's own link path and each writing the
    canonical digest; when [linkBlob] succeeds, every digest of the
    combined list is among them. *)
Theorem linkBlob_links_each_digest_once (lbs : linkedBlobStore.t Σ)
    (canonical : Descriptor) (aliases : list Digest) (w : World Σ) :
  ∃ linked ops,
    let out := linkedBlobStore.linkBlob lbs canonical aliases w in
    calls out.2 = calls w ++ ops ∧
    links_of lbs (v1.Digest canonical) linked ops ∧
    NoDup linked ∧
    (∀ d, d ∈ linked → d ∈ v1.Digest canonical :: aliases) ∧
    (out.1 = Ok tt → ∀ d, d ∈ v1.Digest canonical :: aliases → d ∈ linked).
Proof.
  destruct (linkBlob_loop_calls lbs canonical (v1.Digest canonical :: aliases) ∅ w)
    as (linked & ops & Hc & Hl & Hf & Hnd & Hin & Hall).
  exists linked, ops. unfold linkedBlobStore.linkBlob. split_and!; try done.
  - intros d Hd. by destruct (Hin d Hd).
  - intros Hok d Hd. destruct (Hall Hok d Hd) as [Hs|Hs]; [| done].
    by apply elem_of_empty in Hs.
Qed.
End linking.

Section mounting.
Context {Σ : Type} `{!Collaborators Σ}.

(** A successful [mount], taken apart. *)
Lemma mount_Ok_inv (lbs : linkedBlobStore.t Σ) (sourceRepo : Canonical)
    (dgst : Digest) (sourceStat : option Descriptor) (w : World Σ) desc w' :
  linkedBlobStore.mount lbs sourceRepo dgst sourceStat w = (Ok desc, w') →
  ∃ stat pre p,
    source_stat sourceRepo dgst sourceStat (ext w) stat pre ∧
    desc = v1.mkDescriptor "application/octet-stream" dgst (v1.Size stat) ∧
    linkedBlobStore.linkPath lbs (linkedBlobStore.repository lbs) dgst = Ok p ∧
    calls w' = calls w ++ pre ++ [OpLink p dgst] ∧
    logged w' = logged w.
Proof.
  unfold linkedBlobStore.mount, linkedBlobStore.linkBlob. cbn.
  destruct (decide (dgst ∈ (∅ : gset Digest))) as [Hin|_];
    [by apply elem_of_empty in Hin |].
  destruct sourceStat as [given|]; run.
  - destruct (linkedBlobStore.linkPath lbs (linkedBlobStore.repository lbs) dgst)
      as [p|e|msg] eqn:Hp; cbn; [| done | done].
    destruct (handle (OpLink p dgst) (ext w)) as [[[]|e|msg] σ1]; cbn; [| done | done].
    intros [= <- <-]. exists given, [], p. by cbn.
  - destruct (handle (OpRepository sourceRepo) (ext w)) as [[repo|e|msg] σ1] eqn:Hrepo;
      cbn; [| done | done].
    destruct (handle (OpRepositoryStat repo dgst) σ1) as [[stat|e|msg] σ2] eqn:Hstat;
      cbn; [| done | done].
    destruct (linkedBlobStore.linkPath lbs (linkedBlobStore.repository lbs) dgst)
      as [p|e|msg] eqn:Hp; cbn; [| done | done].
    destruct (handle (OpLink p dgst) σ2) as [[[]|e|msg] σ3]; cbn; [| done | done].
    intros [= <- <-]. exists stat, [OpRepository sourceRepo; OpRepositoryStat repo dgst], p.
    cbn. rewrite <- !app_assoc. split_and!; try done. by exists repo, σ1, σ2.
Qed.

(** C9. A successful [mount] of [dgst] returns, and links, a descriptor
    whose media type is "application/octet-stream", whatever media type the
    source descriptor carries, whose digest is [dgst] and whose size is the
    source descriptor's, be that descriptor supplied or looked up in the
    source repository; the one link it writes is [dgst]'s, with content
    [dgst]. *)
Theorem mount_forces_generic_media_type (lbs : linkedBlobStore.t Σ)
    (sourceRepo : Canonical) (dgst : Digest) (sourceStat : option Descriptor)
    (w : World Σ) (desc : Descriptor) (w' : World Σ) :
  linkedBlobStore.mount lbs sourceRepo dgst sourceStat w = (Ok desc, w') →
  v1.MediaType desc = "application/octet-stream" ∧
  v1.Digest desc = dgst ∧
  ∃ stat pre p,
    source_stat sourceRepo dgst sourceStat (ext w) stat pre ∧
    v1.Size desc = v1.Size stat ∧
    linkedBlobStore.linkPath lbs (linkedBlobStore.repository lbs) dgst = Ok p ∧
    calls w' = calls w ++ pre ++ [OpLink p (v1.Digest desc)].
Proof.
  intros (stat & pre & p & Hsrc & -> & Hp & Hc & _)%mount_Ok_inv. cbn.
  split_and!; try done. by exists stat, pre, p.
Qed.

(** C5. When the options applied by [Create] ask for a mount from [from]
    and that mount succeeds with [desc], [Create] returns no upload: its
    result is the error value [ErrBlobMounted{From: from, Descriptor:
    desc}], in the world the mount left.  The calls made are the mount's,
    from the first one on, and none of them allocates an upload id, writes
    a startedAt file or opens a writer. *)
Theorem Create_mounted_short_circuits (lbs : linkedBlobStore.t Σ)
    (options : list BlobCreateOption) (opts : CreateOptions.t) (from : Canonical)
    (w : World Σ) (desc : Descriptor) (w1 : World Σ) :
  linkedBlobStore.apply_options options CreateOptions.zero = Ok opts →
  CreateOptions.ShouldMount (CreateOptions.Mount opts) = true →
  CreateOptions.From (CreateOptions.Mount opts) = Some from →
  linkedBlobStore.mount lbs from (reference.Digest from)
      (CreateOptions.Stat (CreateOptions.Mount opts))
      (mkWorld (ext w) (calls w) (logged w ++ ["(*linkedBlobStore).Create"]))
    = (Ok desc, w1) →
  linkedBlobStore.Create lbs options w = (Err (ErrBlobMounted from desc), w1) ∧
  ∃ ops, calls w1 = calls w ++ ops ∧ Forall (λ o, ¬ starts_upload o) ops.
Proof.
  intros Hopts Hshould Hfrom Hmount. split.
  - unfold linkedBlobStore.Create. run. rewrite Hopts. cbn.
    rewrite Hshould, Hfrom. cbn. by rewrite Hmount.
  - apply mount_Ok_inv in Hmount as (stat & pre & p & Hsrc & _ & _ & Hc & _).
    cbn in Hc. exists (pre ++ [OpLink p (reference.Digest from)]). split; [done |].
    unfold source_stat in Hsrc.
    destruct (CreateOptions.Stat (CreateOptions.Mount opts)).
    + destruct Hsrc as [_ ->]. cbn.
      repeat first [apply Forall_nil_2 | apply Forall_cons_2; [cbn; tauto |]].
    + destruct Hsrc as (repo & σ1 & σ2 & _ & _ & ->). cbn.
      repeat first [apply Forall_nil_2 | apply Forall_cons_2; [cbn; tauto |]].
Qed.
End mounting.

(** ** Resuming an upload *)

(** Bring the hypotheses about the read of the startedAt file together with
    what the read is known to answer. *)
Ltac same_read Hread :=
  intros; simplify_eq;
  repeat match goal with
  | H : ∃ _, _ |- _ => destruct H as [? H]
  | H : _ ∧ _ |- _ => destruct H as [? ?]
  end; simplify_eq;
  repeat match goal with
  | H : handle (OpGetContent _) _ = _ |- _ => rewrite Hread in H
  end; simplify_eq; try congruence.

Section resuming.
Context {Σ : Type} `{!Collaborators Σ}.

(** C6. [Resume] fails with [ErrBlobUploadUnknown] exactly when the
    driver's read of the session's startedAt file reports path-not-found.
    Any other failure of that read is returned as it is, and so is the
    failure to parse the stored timestamp, both without a further call; an
    upload is returned only when the file was read and its content
    parsed, and then it carries the given id and the parsed start time. *)
Theorem Resume_unknown_iff_startedat_not_found (lbs : linkedBlobStore.t Σ)
    (id : string) (w : World Σ) :
  let spec := uploadStartedAtPathSpec (linkedBlobStore.repository lbs) id in
  let logged' := logged w ++ ["(*linkedBlobStore).Resume"] in
  let out := linkedBlobStore.Resume lbs id w in
  (out.1 = Err ErrBlobUploadUnknown ↔
     ∃ p q σ1, pathFor spec = inr p ∧
       handle (OpGetContent p) (ext w) = (inl (PathNotFoundError q), σ1))
  ∧ (∀ p e σ1, pathFor spec = inr p →
       handle (OpGetContent p) (ext w) = (inl e, σ1) →
       (∀ q, e ≠ PathNotFoundError q) →
       out = (Err (DriverError e), mkWorld σ1 (calls w ++ [OpGetContent p]) logged'))
  ∧ (∀ p content σ1 msg, pathFor spec = inr p →
       handle (OpGetContent p) (ext w) = (inr content, σ1) →
       time_Parse content = inl msg →
       out = (Err (ParseError msg), mkWorld σ1 (calls w ++ [OpGetContent p]) logged'))
  ∧ (∀ bw, out.1 = Ok bw →
       ∃ p content σ1 t, pathFor spec = inr p ∧
         handle (OpGetContent p) (ext w) = (inr content, σ1) ∧
         time_Parse content = inr t ∧
         blobWriter.startedAt bw = t ∧ blobWriter.id bw = id).
Proof.
  intros spec logged' out. subst spec logged' out.
  unfold linkedBlobStore.Resume, linkedBlobStore.newBlobUpload. run.
  destruct (pathFor (uploadStartedAtPathSpec (linkedBlobStore.repository lbs) id))
    as [msg|p] eqn:Hp; cbn.
  { split_and!; [split |..]; by same_read Hp. }
  destruct (handle (OpGetContent p) (ext w)) as [[e|content] σ1] eqn:Hget; cbn.
  { destruct e as [q|detail]; cbn.
    - split_and!; [split |..]; try by same_read Hget.
      all: first [ intros _; by exists p, q, σ1 | same_read Hget; naive_solver ].
    - split_and!; [split |..]; by same_read Hget. }
  destruct (time_Parse content) as [msg|t] eqn:Htime; cbn.
  { split_and!; [split |..]; by same_read Hget. }
  destruct (pathFor (uploadDataPathSpec (linkedBlobStore.repository lbs) id))
    as [msg|path] eqn:Hdata; cbn.
  { split_and!; [split |..]; by same_read Hget. }
  destruct (handle (OpWriter path true) σ1) as [[e|fw] σ2] eqn:Hwriter; cbn.
  - split_and!; [split |..]; by same_read Hget.
  - split_and!; [split |..]; try by same_read Hget.
    intros bw [= <-]. by exists p, content, σ1, t.
Qed.
End resuming.

(** ** Enumerating the links of a repository *)

Section enumerating.
Context {Σ : Type} `{!Collaborators Σ}.

Lemma Enumerate_visit_other (lbs : linkedBlobStore.t Σ) f fileInfo (w : World Σ) :
  ¬ is_link fileInfo → linkedBlobStore.Enumerate_visit lbs f fileInfo w = (Ok tt, w).
Proof.
  unfold is_link, linkedBlobStore.Enumerate_visit. intros Hn.
  destruct (IsDir fileInfo); [done |].
  destruct (decide ((path_Split (Path fileInfo)).2 ≠ "link")) as [|Heq]; [done |].
  destruct Hn. split; [done |]. by destruct (decide ((path_Split (Path fileInfo)).2 = "link")).
Qed.

Lemma Enumerate_visit_link (lbs : linkedBlobStore.t Σ) f fileInfo (w : World Σ) :
  is_link fileInfo →
  linkedBlobStore.Enumerate_visit lbs f fileInfo w =
    (digest ← blobStore_readlink (Path fileInfo);
     r ← attempt (linkedBlobStore.Stat lbs digest);
     match r with
     | inl err => match err with ErrBlobUnknown => mret tt | _ => fail err end
     | inr _ => f digest
     end) w.
Proof.
  unfold is_link, linkedBlobStore.Enumerate_visit. intros [-> ->].
  by destruct (decide ("link" ≠ "link")).
Qed.

Lemma ingests_snoc_other (ops : list Op) (o : Op) :
  (∀ d, o ≠ OpIngestor d) → ingests (ops ++ [o]) = ingests ops.
Proof.
  intros Ho. unfold ingests. rewrite omap_app. cbn.
  destruct o; try by rewrite app_nil_r. by destruct (Ho dgst).
Qed.

Lemma readlink_ingests p (w : World Σ) r w' :
  blobStore_readlink p w = (r, w') → ingests (calls w') = ingests (calls w).
Proof.
  intros H. apply (call_inv (OpReadlink p)) in H as (_ & -> & _).
  by apply ingests_snoc_other.
Qed.

Lemma ingestor_call_ingests d (w : World Σ) r w' :
  ingestor_call d w = (r, w') → ingests (calls w') = ingests (calls w) ++ [d].
Proof.
  intros H. apply (call_inv (OpIngestor d)) in H as (_ & -> & _).
  unfold ingests. by rewrite omap_app.
Qed.

(** The link-backed statter never calls the ingestor. *)
Lemma statter_Stat_ingests (st : linkedBlobStatter.t) dgst (w : World Σ) r w' :
  linkedBlobStatter.Stat st dgst w = (r, w') → ingests (calls w') = ingests (calls w).
Proof.
  unfold linkedBlobStatter.Stat. run.
  destruct (linkedBlobStatter.linkPath st (linkedBlobStatter.repository st) dgst)
    as [p|e|msg]; cbn; [| by intros [= _ <-] ..].
  destruct (handle (OpReadlink p) (ext w)) as [[target|e|msg] σ1]; cbn.
  - destruct (decide (target ≠ dgst)); cbn;
      destruct (handle (OpStatterStat target) σ1) as [r' σ2];
      intros [= _ <-]; cbn; by rewrite !ingests_snoc_other.
  - destruct e as [| | | | [|] | | |]; intros [= _ <-]; cbn; by rewrite ingests_snoc_other.
  - intros [= _ <-]. cbn. by rewrite ingests_snoc_other.
Qed.

Lemma Stat_ingests (lbs : linkedBlobStore.t Σ) st dgst (w : World Σ) r w' :
  linkedBlobStore.blobAccessController lbs = linkedBlobStatter.service st →
  linkedBlobStore.Stat lbs dgst w = (r, w') → ingests (calls w') = ingests (calls w).
Proof.
  unfold linkedBlobStore.Stat. intros ->. cbn. apply statter_Stat_ingests.
Qed.

Lemma walk_steps_app (pre post : list WalkStep) f (w wa : World Σ) :
  walk_steps pre f w = (Ok tt, wa) →
  walk_steps (pre ++ post) f w = walk_steps post f wa.
Proof.
  revert w. induction pre as [|[fileInfo|e] pre IH]; intros w; cbn.
  - by intros [= ->].
  - unfold mbind, M_bind. destruct (f fileInfo w) as [[[]|e|msg] w1]; [apply IH | done | done].
  - done.
Qed.

(** A clean walk visits every entry, succeeds, and hands the ingestor
    exactly the resolved digests. *)
Lemma walk_steps_clean (lbs : linkedBlobStore.t Σ) st steps (w : World Σ) ds w' :
  linkedBlobStore.blobAccessController lbs = linkedBlobStatter.service st →
  clean_walk lbs steps w ds w' →
  walk_steps steps (linkedBlobStore.Enumerate_visit lbs ingestor_call) w = (Ok tt, w') ∧
  ingests (calls w') = ingests (calls w) ++ ds.
Proof.
  intros Hc. induction 1 as
    [ w
    | fileInfo rest w ds w' Hn _ [IHr IHi]
    | fileInfo rest w d w1 w2 ds w' Hl Hread HS _ [IHr IHi]
    | fileInfo rest w d w1 desc w2 w3 ds w' Hl Hread HS Hing _ [IHr IHi] ]; cbn.
  - by rewrite app_nil_r.
  - by rewrite (bind_Ok _ _ _ _ _ (Enumerate_visit_other lbs _ fileInfo w Hn)).
  - split.
    + erewrite bind_Ok; [exact IHr |].
      rewrite (Enumerate_visit_link _ _ _ _ Hl), (bind_Ok _ _ _ _ _ Hread).
      unfold mbind, M_bind, attempt. by rewrite HS.
    + rewrite IHi. f_equal.
      rewrite (Stat_ingests _ _ _ _ _ _ Hc HS). by apply (readlink_ingests _ _ _ _ Hread).
  - split.
    + erewrite bind_Ok; [exact IHr |].
      rewrite (Enumerate_visit_link _ _ _ _ Hl), (bind_Ok _ _ _ _ _ Hread).
      unfold mbind, M_bind, attempt. by rewrite HS.
    + rewrite IHi, (ingestor_call_ingests _ _ _ _ Hing), <- app_assoc. f_equal.
      rewrite (Stat_ingests _ _ _ _ _ _ Hc HS). by apply (readlink_ingests _ _ _ _ Hread).
Qed.

(** A failing step ends the walk with its error, in the world of the
    failing call: the entries after it are not visited. *)
Lemma walk_steps_fails (lbs : linkedBlobStore.t Σ) st step post (w : World Σ) offered e w' :
  linkedBlobStore.blobAccessController lbs = linkedBlobStatter.service st →
  step_fails lbs step w offered e w' →
  walk_steps (step :: post) (linkedBlobStore.Enumerate_visit lbs ingestor_call) w = (Err e, w') ∧
  ingests (calls w') = ingests (calls w) ++ offered.
Proof.
  intros Hc. destruct 1 as
    [ e w
    | fileInfo w e w1 Hl Hread
    | fileInfo w d w1 e w2 Hl Hread HS Hne
    | fileInfo w d w1 desc w2 e w3 Hl Hread HS Hing ]; cbn.
  - by rewrite app_nil_r.
  - split.
    + erewrite bind_Err; [done |].
      by rewrite (Enumerate_visit_link _ _ _ _ Hl), (bind_Err _ _ _ _ _ Hread).
    + rewrite app_nil_r. by apply (readlink_ingests _ _ _ _ Hread).
  - split.
    + erewrite bind_Err; [done |].
      rewrite (Enumerate_visit_link _ _ _ _ Hl), (bind_Ok _ _ _ _ _ Hread).
      unfold mbind, M_bind, attempt. rewrite HS. by destruct e.
    + rewrite app_nil_r, (Stat_ingests _ _ _ _ _ _ Hc HS).
      by apply (readlink_ingests _ _ _ _ Hread).
  - split.
    + erewrite bind_Err; [done |].
      rewrite (Enumerate_visit_link _ _ _ _ Hl), (bind_Ok _ _ _ _ _ Hread).
      unfold mbind, M_bind, attempt. by rewrite HS.
    + rewrite (ingestor_call_ingests _ _ _ _ Hing). f_equal.
      rewrite (Stat_ingests _ _ _ _ _ _ Hc HS). by apply (readlink_ingests _ _ _ _ Hread).
Qed.

(** C8, as amended.  [Enumerate] over the entries [steps] the driver's walk
    yields for the link directory, with the link-backed statter as access
    controller.  A link counts by what the repository's own [Stat] says of
    the digest it holds, not by the global statter alone: when for every
    link of the tree that [Stat] either resolves the digest or reports it
    unknown, [Enumerate] returns no error and the ingestor has been handed
    exactly the resolved digests [ds], in walk order; the others add none.  When,
    after a clean stretch [pre], a step fails (the walk itself, the read
    of a link, [Stat] with an error other than [ErrBlobUnknown], or the
    ingestor), [Enumerate] returns that error in the world of the failing
    call: no entry after it is visited, and the ingestor has seen the
    digests of [pre] and, if it is the one that failed, the digest it
    refused. *)
Theorem Enumerate_skips_stale_stops_on_error (lbs : linkedBlobStore.t Σ)
    (st : linkedBlobStatter.t) (w : World Σ) (rootPath : string)
    (steps : list WalkStep) (σ1 : Σ) :
  linkedBlobStore.blobAccessController lbs = linkedBlobStatter.service st →
  pathFor (linkedBlobStore.linkDirectoryPathSpec lbs) = inr rootPath →
  handle (OpWalk rootPath) (ext w) = (steps, σ1) →
  let w1 := mkWorld σ1 (calls w ++ [OpWalk rootPath]) (logged w) in
  (∀ ds w', clean_walk lbs steps w1 ds w' →
     linkedBlobStore.Enumerate lbs ingestor_call w = (Ok tt, w') ∧
     ingests (calls w') = ingests (calls w) ++ ds)
  ∧ (∀ pre step post ds wa offered e wb,
       steps = pre ++ step :: post →
       clean_walk lbs pre w1 ds wa →
       step_fails lbs step wa offered e wb →
       linkedBlobStore.Enumerate lbs ingestor_call w = (Err e, wb) ∧
       ingests (calls wb) = ingests (calls w) ++ ds ++ offered).
Proof.
  intros Hc Hroot Hwalk w1.
  assert (Hrun : ∀ f, linkedBlobStore.Enumerate lbs f w =
                      walk_steps steps (linkedBlobStore.Enumerate_visit lbs f) w1).
  { intros f. unfold linkedBlobStore.Enumerate, driver_Walk. run.
    by rewrite Hroot; cbn; rewrite Hwalk. }
  assert (Hw1 : ingests (calls w1) = ingests (calls w)).
  { subst w1. cbn. by apply ingests_snoc_other. }
  split.
  - intros ds w' Hclean. rewrite Hrun, <- Hw1. by eapply walk_steps_clean.
  - intros pre step post ds wa offered e wb -> Hclean Hfail. rewrite Hrun.
    destruct (walk_steps_clean _ _ _ _ _ _ Hc Hclean) as [Hpre Hds].
    destruct (walk_steps_fails _ _ _ post _ _ _ _ Hc Hfail) as [Hstep Hoff].
    split.
    + by rewrite (walk_steps_app _ _ _ _ _ Hpre).
    + by rewrite Hoff, Hds, Hw1, <- app_assoc.
Qed.
End enumerating.

(** ** Purging uploads *)

Section purging.
Import purge.
Variable parse : string → option Z.

Local Arguments purge_one : simpl never.
Local Arguments gather : simpl never.

(** A session directory holds the upload segment and lies strictly above
    the path it was recognised from. *)
Lemma session_of_Some (p d : list string) :
  session_of p = Some d → "_uploads" ∈ d ∧ d `prefix_of` p.
Proof.
  revert d. induction p as [|seg rest IH]; intros d; cbn; [done |].
  destruct (decide (seg = "_uploads")) as [->|Hne].
  - destruct rest as [|id [|next rest']]; [done | done |].
    intros [= <-]. split; [by left |]. by exists (next :: rest').
  - destruct (session_of rest) as [d'|]; [| done]. cbn. intros [= <-].
    destruct (IH d' eq_refl) as [Hin Hpre]. split; [by right |].
    by apply prefix_cons.
Qed.

Lemma elem_of_sessions (st : Storage) (d : list string) :
  d ∈ sessions st ↔ ∃ p, is_Some (files st !! p) ∧ session_of p = Some d.
Proof.
  unfold sessions. rewrite elem_of_elements, elem_of_set_omap.
  by setoid_rewrite elem_of_dom.
Qed.

Lemma sessions_uploads (st : Storage) (d : list string) :
  d ∈ sessions st → "_uploads" ∈ d.
Proof.
  intros (p & _ & Hs)%elem_of_sessions. by destruct (session_of_Some p d Hs).
Qed.

Lemma gather_step (st : Storage) us es (d : list string) :
  gather parse st (us, es) d = (us ++ gathered parse st d, es ++ gather_errors parse st d).
Proof.
  unfold gather, gathered, gather_errors.
  destruct (files st !! (d ++ ["startedat"])) as [content|]; cbn.
  - destruct (parse content); cbn; by rewrite app_nil_r.
  - by rewrite !app_nil_r.
Qed.

Lemma gather_foldl (st : Storage) (l : list (list string)) :
  ∀ us0 es0,
  foldl (gather parse st) (us0, es0) l =
    (us0 ++ (l ≫= gathered parse st), es0 ++ (l ≫= gather_errors parse st)).
Proof.
  induction l as [|d l IH]; intros us0 es0; cbn.
  - by rewrite !app_nil_r.
  - by rewrite gather_step, IH, <- !app_assoc.
Qed.

Lemma elem_of_gathered (st : Storage) (d : list string) (u : uploadData) :
  u ∈ gathered parse st d ↔ containingDir u = d ∧ started parse st d (startedAt u).
Proof.
  unfold gathered, started.
  destruct (files st !! (d ++ ["startedat"])) as [content|].
  - destruct (parse content) as [t|] eqn:Hparse.
    + rewrite list_elem_of_singleton. split.
      * intros ->. cbn. split; [done |]. by exists content.
      * intros [<- (c & [= <-] & Ht)]. destruct u as [dir t']. cbn in *. congruence.
    + rewrite elem_of_nil. split; [done |]. intros [_ (c & [= <-] & Ht)]. congruence.
  - rewrite elem_of_nil. split; [done |]. by intros [_ (c & [=] & _)].
Qed.

Lemma elem_of_gather_errors (st : Storage) (d : list string) (e : purge_error) :
  e ∈ gather_errors parse st d →
  e = BadTimestamp d ∧ is_Some (files st !! (d ++ ["startedat"])).
Proof.
  unfold gather_errors.
  destruct (files st !! (d ++ ["startedat"])) as [content|]; [| by intros ?%elem_of_nil].
  destruct (parse content); [by intros ?%elem_of_nil |].
  intros ->%list_elem_of_singleton. split; [done | by eexists].
Qed.

Section sweep.
Variable olderThan : Z.
Variable actuallyDelete : bool.

Lemma purge_one_step ds es (st : Storage) (u : uploadData) :
  ∃ st',
    purge_one olderThan actuallyDelete (ds, es, st) u =
      (ds ++ removed olderThan actuallyDelete (undeletable st) u, es ++ removal_errors olderThan actuallyDelete (undeletable st) u, st') ∧
    undeletable st' = undeletable st ∧
    (∀ p, ¬ containingDir u `prefix_of` p → files st' !! p = files st !! p).
Proof.
  unfold purge_one, removed, removal_errors, driver_Delete.
  destruct (decide (startedAt u < olderThan)) as [Hold|Hnew]; cbn.
  - destruct actuallyDelete; cbn.
    + destruct (decide (containingDir u ∈ undeletable st)) as [Hu|Hu].
      * rewrite (bool_decide_eq_true_2 _ Hu). exists st. by rewrite app_nil_r.
      * rewrite (bool_decide_eq_false_2 _ Hu). eexists. split_and!; [by rewrite app_nil_r | done |].
        intros p Hp. cbn. rewrite map_lookup_filter.
        destruct (files st !! p) as [v|]; [| done]. cbn.
        by rewrite option_guard_True.
    + exists st. by rewrite app_nil_r.
  - exists st. by rewrite !app_nil_r.
Qed.

Lemma purge_foldl (us : list uploadData) :
  ∀ ds0 es0 st0, ∃ st',
    foldl (purge_one olderThan actuallyDelete) (ds0, es0, st0) us =
      (ds0 ++ (us ≫= removed olderThan actuallyDelete (undeletable st0)),
       es0 ++ (us ≫= removal_errors olderThan actuallyDelete (undeletable st0)), st') ∧
    undeletable st' = undeletable st0 ∧
    (∀ p, (∀ u, u ∈ us → ¬ containingDir u `prefix_of` p) →
          files st' !! p = files st0 !! p).
Proof.
  induction us as [|u us IH]; intros ds0 es0 st0; cbn.
  - exists st0. by rewrite !app_nil_r.
  - destruct (purge_one_step ds0 es0 st0 u) as (st1 & -> & HU1 & Hf1).
    destruct (IH (ds0 ++ removed olderThan actuallyDelete (undeletable st0) u)
                 (es0 ++ removal_errors olderThan actuallyDelete (undeletable st0) u) st1)
      as (st' & -> & HU & Hf).
    exists st'. rewrite HU1, <- !app_assoc. split_and!; [done | congruence |].
    intros p Hp. rewrite Hf; [apply Hf1 |].
    + apply Hp. by left.
    + intros u' Hu'. apply Hp. by right.
Qed.


End sweep.





(** The outcome of a sweep, by membership. *)
Lemma PurgeUploads_outcome (st : Storage) (olderThan : Z) (actuallyDelete : bool)
    deleted errors st' :
  PurgeUploads parse st olderThan actuallyDelete = (deleted, errors, st') →
  (∀ d, d ∈ deleted ↔
     stale parse st olderThan d ∧ (actuallyDelete = true → d ∉ undeletable st))
  ∧ (∀ e, e ∈ errors → is_Some (files st !! (error_dir e ++ ["startedat"])))
  ∧ (∀ p, "_uploads" ∉ p → files st' !! p = files st !! p).
Proof.
  unfold PurgeUploads, getOutstandingUploads. rewrite gather_foldl. cbn.
  destruct (purge_foldl olderThan actuallyDelete (sessions st ≫= gathered parse st) []
              (sessions st ≫= gather_errors parse st) st) as (st1 & -> & _ & Hfiles).
  intros [= <- <- <-].
  assert (Hus : ∀ u, u ∈ sessions st ≫= gathered parse st ↔
                     containingDir u ∈ sessions st ∧
                     started parse st (containingDir u) (startedAt u)).
  { intros u. rewrite list_elem_of_bind. split.
    - intros (d & [<- Hs]%elem_of_gathered & Hd). done.
    - intros [Hd Hs]. exists (containingDir u). split; [| done].
      by apply elem_of_gathered. }
  split_and!.
  - intros d. cbn. rewrite list_elem_of_bind. unfold stale, removed. split.
    + intros (u & Hd & [Hu Hs]%Hus).
      destruct (decide (startedAt u < olderThan)) as [Hold|]; [| by apply elem_of_nil in Hd].
      destruct actuallyDelete; cbn in Hd.
      * destruct (bool_decide (containingDir u ∈ undeletable st)) eqn:Hb;
          [by apply elem_of_nil in Hd |].
        apply list_elem_of_singleton in Hd as ->.
        apply bool_decide_eq_false_1 in Hb. split; [split |]; eauto.
      * apply list_elem_of_singleton in Hd as ->. split; [split |]; eauto. done.
    + intros [[Hd (t & Hs & Hold)] Hdel].
      exists (mkUploadData d t). split; [| by apply Hus].
      cbn. destruct (decide (t < olderThan)); [| done].
      destruct actuallyDelete; cbn; [| by apply list_elem_of_singleton].
      rewrite bool_decide_eq_false_2; [by apply list_elem_of_singleton | by apply Hdel].
  - intros e [He|He]%elem_of_app.
    + apply list_elem_of_bind in He as (d & He & _).
      by apply elem_of_gather_errors in He as [-> ?].
    + apply list_elem_of_bind in He as (u & He & [_ (content & Hc & _)]%Hus).
      unfold removal_errors in He.
      destruct (decide (startedAt u < olderThan)); [| by apply elem_of_nil in He].
      destruct (actuallyDelete && bool_decide (containingDir u ∈ undeletable st));
        [| by apply elem_of_nil in He].
      apply list_elem_of_singleton in He as ->. cbn. by eexists.
  - intros p Hp. apply Hfiles. intros u [Hu _]%Hus Hpre.
    apply sessions_uploads in Hu. apply Hp.
    destruct Hpre as [k ->]. apply elem_of_app. by left.
Qed.


(** C2.  Every directory a sweep returns as deleted holds the [_uploads]
    segment; a path without that segment maps to the same content after
    the sweep as before (whatever else the path resembles), so every file
    the sweep removed had the segment in its path. *)
Theorem PurgeUploads_touches_only_uploads (st : Storage) (olderThan : Z)
    (actuallyDelete : bool) :
  let '(deleted, _, st') := PurgeUploads parse st olderThan actuallyDelete in
  (∀ d, d ∈ deleted → "_uploads" ∈ d)
  ∧ (∀ p, "_uploads" ∉ p → files st' !! p = files st !! p)
  ∧ (∀ p, files st' !! p ≠ files st !! p → "_uploads" ∈ p).
Proof.
  destruct (PurgeUploads parse st olderThan actuallyDelete) as [[deleted errors] st'] eqn:HP.
  apply PurgeUploads_outcome in HP as (Hdel & _ & Hframe).
  split_and!.
  - intros d [[Hd _] _]%Hdel. by apply (sessions_uploads st).
  - done.
  - intros p Hp. destruct (decide ("_uploads" ∈ p)) as [|Hn]; [done |].
    by destruct (Hp (Hframe p Hn)).
Qed.
End purging.

(** * The properties at work on the in-memory registry *)

(** Equations between closed terms are settled by evaluation. *)
Ltac evaluated := vm_compute; reflexivity.

Section witnesses.
Import example.

Lemma statter_Stat_follows_link_witness :
  linkedBlobStatter.linkPath statter (linkedBlobStatter.repository statter) layer_alias
    = Ok (link_of layer_alias)
  ∧ linkedBlobStatter.Stat statter layer_alias w0
    = (Ok (octets layer 5),
       mkWorld populated [OpReadlink (link_of layer_alias); OpStatterStat layer]
         ["looking up blob with canonical target: sha512:9c -> sha256:1f"]).
Proof.
  assert (Hp : linkedBlobStatter.linkPath statter
                 (linkedBlobStatter.repository statter) layer_alias
               = Ok (link_of layer_alias)) by evaluated.
  assert (Hl : handle (OpReadlink (link_of layer_alias)) (ext w0) = (Ok layer, populated))
    by evaluated.
  assert (Hs : handle (OpStatterStat layer) populated = (Ok (octets layer 5), populated))
    by evaluated.
  split; [exact Hp |].
  exact (proj1 (proj2 (statter_Stat_follows_link statter layer_alias w0 _ Hp)) _ _ _ _ Hl Hs).
Defined.

Lemma Get_Open_ServeBlob_read_canonical_witness :
  linkedBlobStore.Get (store false) layer_alias w0
    = (Ok "hello",
       mkWorld populated
         [OpReadlink (link_of layer_alias); OpStatterStat layer; OpBlobGet layer]
         ["looking up blob with canonical target: sha512:9c -> sha256:1f"])
  ∧ linkedBlobStore.Get (store false) base_only w0
    = (Err ErrBlobUnknown, mkWorld populated [OpReadlink (link_of base_only)] []).
Proof.
  assert (HS : linkedBlobStore.Stat (store false) layer_alias w0
               = (Ok (octets layer 5),
                  mkWorld populated [OpReadlink (link_of layer_alias); OpStatterStat layer]
                    ["looking up blob with canonical target: sha512:9c -> sha256:1f"]))
    by evaluated.
  assert (HG : handle (OpBlobGet layer) populated = (Ok "hello", populated)) by evaluated.
  assert (Hp : linkedBlobStatter.linkPath statter
                 (linkedBlobStatter.repository statter) base_only
               = Ok (link_of base_only)) by evaluated.
  assert (Hl : handle (OpReadlink (link_of base_only)) (ext w0)
               = (Err (DriverError (PathNotFoundError (link_of base_only))), populated))
    by evaluated.
  destruct (Get_Open_ServeBlob_read_canonical (store false) layer_alias w0)
    as (_ & _ & Hok).
  destruct (Get_Open_ServeBlob_read_canonical (store false) base_only w0)
    as (_ & Habsent & _).
  split.
  - exact (proj1 (Hok _ _ HS) _ _ HG).
  - exact (proj1 (Habsent statter _ _ _ eq_refl Hp Hl)).
Defined.

Lemma Delete_checks_before_clearing_witness :
  linkedBlobStore.Delete (store false) layer w0 = (Err ErrUnsupported, w0)
  ∧ linkedBlobStore.Delete (store true) base_only w0
    = (Err ErrBlobUnknown, mkWorld populated [OpReadlink (link_of base_only)] []).
Proof.
  assert (Hp : linkedBlobStatter.linkPath statter
                 (linkedBlobStatter.repository statter) base_only
               = Ok (link_of base_only)) by evaluated.
  assert (Hl : handle (OpReadlink (link_of base_only)) (ext w0)
               = (Err (DriverError (PathNotFoundError (link_of base_only))), populated))
    by evaluated.
  split.
  - exact (proj1 (Delete_checks_before_clearing (store false) layer w0) eq_refl).
  - exact (proj1 (proj2 (proj2 (Delete_checks_before_clearing (store true) base_only w0)
                           eq_refl))
             statter _ _ _ eq_refl Hp Hl).
Defined.

Lemma Create_mounted_short_circuits_witness :
  linkedBlobStore.apply_options [linkedBlobStore.WithMountFrom from_base] CreateOptions.zero
    = Ok (CreateOptions.mk (CreateOptions.mkMount true (Some from_base) None))
  ∧ linkedBlobStore.Create (store false) [linkedBlobStore.WithMountFrom from_base] w0
    = (Err (ErrBlobMounted from_base (octets base_only 9)), mounted_world)
  ∧ calls mounted_world
    = [OpRepository from_base; OpRepositoryStat "library/base" base_only;
       OpLink (link_of base_only) base_only].
Proof.
  assert (Hmount :
    linkedBlobStore.mount (store false) from_base (reference.Digest from_base) None
      (mkWorld (ext w0) (calls w0) (logged w0 ++ ["(*linkedBlobStore).Create"]))
    = (Ok (octets base_only 9), mounted_world)) by evaluated.
  split_and!.
  - reflexivity.
  - exact (proj1 (Create_mounted_short_circuits (store false)
                    [linkedBlobStore.WithMountFrom from_base]
                    (CreateOptions.mk (CreateOptions.mkMount true (Some from_base) None))
                    from_base w0 _ _ eq_refl eq_refl eq_refl Hmount)).
  - evaluated.
Defined.

Lemma mount_forces_generic_media_type_witness :
  linkedBlobStore.mount (store false) from_base base_only (Some gzip_layer) w0
    = (Ok (octets base_only 42), gzip_mounted_world)
  ∧ v1.MediaType (octets base_only 42) = "application/octet-stream".
Proof.
  assert (Hmount :
    linkedBlobStore.mount (store false) from_base base_only (Some gzip_layer) w0
    = (Ok (octets base_only 42), gzip_mounted_world)) by evaluated.
  split; [exact Hmount |].
  exact (proj1 (mount_forces_generic_media_type (store false) from_base base_only
                  (Some gzip_layer) w0 _ _ Hmount)).
Defined.

Lemma Resume_unknown_iff_startedat_not_found_witness :
  (linkedBlobStore.Resume (store false) "upload-9" w0).1 = Err ErrBlobUploadUnknown
  ∧ linkedBlobStore.Resume (store false) "upload-8" w0
    = (Err (ParseError "cannot parse timestamp"),
       mkWorld populated [OpGetContent (startedat_of "upload-8")]
         ["(*linkedBlobStore).Resume"]).
Proof.
  assert (Hp9 : pathFor (uploadStartedAtPathSpec "library/app" "upload-9")
                = inr (startedat_of "upload-9")) by evaluated.
  assert (Hg9 : handle (OpGetContent (startedat_of "upload-9")) (ext w0)
                = (inl (PathNotFoundError (startedat_of "upload-9")), populated))
    by evaluated.
  assert (Hp8 : pathFor (uploadStartedAtPathSpec "library/app" "upload-8")
                = inr (startedat_of "upload-8")) by evaluated.
  assert (Hg8 : handle (OpGetContent (startedat_of "upload-8")) (ext w0)
                = (inr "yesterday", populated)) by evaluated.
  assert (Ht8 : time_Parse "yesterday" = inl "cannot parse timestamp") by evaluated.
  split.
  - apply (proj1 (Resume_unknown_iff_startedat_not_found (store false) "upload-9" w0)).
    by exists (startedat_of "upload-9"), (startedat_of "upload-9"), populated.
  - exact (proj1 (proj2 (proj2
             (Resume_unknown_iff_startedat_not_found (store false) "upload-8" w0)))
             _ _ _ _ Hp8 Hg8 Ht8).
Defined.
Lemma Enumerate_skips_stale_stops_on_error_witness :
  pathFor (linkedBlobStore.linkDirectoryPathSpec (store false)) = inr layers_root
  ∧ handle (OpWalk layers_root) (ext w0) = (layers_walk, populated)
  ∧ (∃ w', linkedBlobStore.Enumerate (store false) ingestor_call w0 = (Ok tt, w')
           ∧ ingests (calls w') = ingests (calls w0) ++ [layer; layer])
  ∧ (∃ w', linkedBlobStore.Enumerate (store false) ingestor_call refusing
             = (Err (OtherError "rejected"), w')
           ∧ ingests (calls w') = ingests (calls refusing) ++ [] ++ [layer]).
Proof.
  assert (Hroot : pathFor (linkedBlobStore.linkDirectoryPathSpec (store false))
                  = inr layers_root) by evaluated.
  assert (Hwalk : handle (OpWalk layers_root) (ext w0) = (layers_walk, populated))
    by evaluated.
  assert (Hwalk' : handle (OpWalk layers_root) (ext refusing)
                   = (layers_walk, ext refusing)) by evaluated.
  split; [exact Hroot |]. split; [exact Hwalk |]. split.
  - destruct (Enumerate_skips_stale_stops_on_error (store false) statter w0 _ _ _
                eq_refl Hroot Hwalk) as [Hclean _].
    cbv zeta in Hclean. eexists. apply Hclean. unfold layers_walk.
    eapply walk_resolved; [split; evaluated | evaluated | evaluated | evaluated |].
    eapply walk_stale; [split; evaluated | evaluated | evaluated |].
    eapply walk_resolved; [split; evaluated | evaluated | evaluated | evaluated |].
    apply walk_done.
  - destruct (Enumerate_skips_stale_stops_on_error (store false) statter refusing _ _ _
                eq_refl Hroot Hwalk') as [_ Hstop].
    cbv zeta in Hstop. eexists.
    eapply (Hstop [] _ _ [] _ [layer]); [reflexivity | apply walk_done |].
    eapply fails_ingestor; [split; evaluated | evaluated | evaluated | evaluated].
Defined.

(** The refused ingestion ends the enumeration at once: the two links
    after the first are never read. *)
Example Enumerate_stops_at_refusal :
  let out := linkedBlobStore.Enumerate (store false) ingestor_call refusing in
  out.1 = Err (OtherError "rejected")
  ∧ calls out.2 = [OpWalk layers_root; OpReadlink (link_of layer);
                   OpReadlink (link_of layer); OpStatterStat layer; OpIngestor layer].
Proof. split; evaluated. Qed.

(** Duplicate aliases are linked once, and every link holds the canonical
    digest. *)
Example linkBlob_with_repeated_aliases :
  let out := linkedBlobStore.linkBlob (store false) (octets layer 5)
               [layer_alias; layer; layer_alias] w0 in
  out.1 = Ok tt
  ∧ calls out.2 = [OpLink (link_of layer) layer; OpLink (link_of layer_alias) layer].
Proof. split; evaluated. Qed.

(** The purger's tests, in small: the old session alone is deleted, with
    no error; the session without a startedAt file and the look-alike
    tree stay. *)
Example PurgeUploads_some :
  let out := purge.PurgeUploads parse_seconds uploads_fs 50 true in
  out.1 = ([old_session], [])
  ∧ purge.files out.2 !! (old_session ++ ["data"]) = None
  ∧ purge.files out.2 !! (new_session ++ ["data"]) = Some ""
  ∧ purge.files out.2 !! (headless_session ++ ["data"]) = Some ""
  ∧ purge.files out.2 !! important_file = Some "".
Proof. split_and!; evaluated. Qed.

(** A dry run gathers the same path and removes nothing. *)
Example PurgeUploads_dry_run :
  let out := purge.PurgeUploads parse_seconds uploads_fs 50 false in
  out.1 = ([old_session], [])
  ∧ purge.files out.2 !! (old_session ++ ["data"]) = Some "".
Proof. split_and!; evaluated. Qed.

(** On a driver that refuses to delete the old session, the sweep deletes
    nothing and reports the refusal. *)
Example PurgeUploads_refused_removal :
  (purge.PurgeUploads parse_seconds refusing_fs 50 true).1
    = ([], [purge.DeleteFailed old_session]).
Proof. evaluated. Qed.

End witnesses.

(** * Further properties of the linked blob store *)

Section single_link.
Context {Σ : Type} `{!Collaborators Σ}.

(** [linkBlob] without aliases: one link call, at the canonical digest's
    path, unless that path cannot be resolved. *)
Lemma linkBlob_single (lbs : linkedBlobStore.t Σ) (desc : Descriptor) (w : World Σ) :
  linkedBlobStore.linkBlob lbs desc [] w =
    match linkedBlobStore.linkPath lbs (linkedBlobStore.repository lbs) (v1.Digest desc) with
    | Ok p =>
        let '(r, σ) := handle (OpLink p (v1.Digest desc)) (ext w) in
        (r, mkWorld σ (calls w ++ [OpLink p (v1.Digest desc)]) (logged w))
    | Err e => (Err e, w)
    | Panic msg => (Panic msg, w)
    end.
Proof.
  unfold linkedBlobStore.linkBlob. cbn.
  destruct (decide (v1.Digest desc ∈ (∅ : gset Digest))) as [Hin|_];
    [by apply elem_of_empty in Hin |].
  run.
  destruct (linkedBlobStore.linkPath lbs (linkedBlobStore.repository lbs) (v1.Digest desc))
    as [p|e|msg]; cbn; [| done | done].
  destruct (handle (OpLink p (v1.Digest desc)) (ext w)) as [[[]|e|msg] σ]; done.
Qed.

Local Arguments linkedBlobStore.linkBlob : simpl never.

(** [mount] writes no log line. *)
Lemma mount_logged (lbs : linkedBlobStore.t Σ) sourceRepo dgst sourceStat (w : World Σ) :
  logged (linkedBlobStore.mount lbs sourceRepo dgst sourceStat w).2 = logged w.
Proof.
  unfold linkedBlobStore.mount.
  destruct sourceStat as [given|]; unfold mbind, M_bind.
  - cbn. rewrite linkBlob_single. cbn.
    destruct (linkedBlobStore.linkPath lbs (linkedBlobStore.repository lbs) dgst)
      as [p|e|msg]; cbn; [| done | done].
    by destruct (handle (OpLink p dgst) (ext w)) as [[[]|e|msg] σ].
  - run.
    destruct (handle (OpRepository sourceRepo) (ext w)) as [[repo|e|msg] σ1];
      cbn; [| done | done].
    destruct (handle (OpRepositoryStat repo dgst) σ1) as [[stat|e|msg] σ2];
      cbn; [| done | done].
    match goal with |- context [linkedBlobStore.linkBlob ?l ?d [] ?x] =>
      rewrite (linkBlob_single l d x) end. cbn.
    destruct (linkedBlobStore.linkPath lbs (linkedBlobStore.repository lbs) dgst)
      as [p|e|msg]; cbn; [| done | done].
    by destruct (handle (OpLink p dgst) σ2) as [[[]|e|msg] σ3].
Qed.

(** The calls [mount] adds ask the registry, stat in the source repository
    or write a link. *)
Lemma mount_calls (lbs : linkedBlobStore.t Σ) sourceRepo dgst sourceStat (w : World Σ) :
  ∃ ops,
    calls (linkedBlobStore.mount lbs sourceRepo dgst sourceStat w).2 = calls w ++ ops ∧
    Forall (λ o, match o with
                 | OpRepository _ | OpRepositoryStat _ _ | OpLink _ _ => True
                 | _ => False
                 end) ops ∧
    (is_Some sourceStat → Forall (λ o, ∃ p, o = OpLink p dgst) ops ∧ (length ops ≤ 1)%nat).
Proof.
  unfold linkedBlobStore.mount.
  destruct sourceStat as [given|]; unfold mbind, M_bind.
  - cbn. rewrite linkBlob_single. cbn.
    destruct (linkedBlobStore.linkPath lbs (linkedBlobStore.repository lbs) dgst)
      as [p|e|msg]; cbn.
    2,3: exists []; rewrite app_nil_r; split_and!; [done | constructor |];
         intros _; split; [constructor | cbn; lia].
    destruct (handle (OpLink p dgst) (ext w)) as [r σ].
    exists [OpLink p dgst]. split_and!.
    + by destruct r as [[]| |].
    + by apply Forall_singleton.
    + intros _. split; [apply Forall_singleton; by exists p | cbn; lia].
  - run.
    destruct (handle (OpRepository sourceRepo) (ext w)) as [[repo|e|msg] σ1]; cbn.
    2,3: exists [OpRepository sourceRepo]; split_and!;
         [done | by apply Forall_singleton | by intros [? [=]]].
    destruct (handle (OpRepositoryStat repo dgst) σ1) as [[stat|e|msg] σ2]; cbn.
    2,3: exists [OpRepository sourceRepo; OpRepositoryStat repo dgst]; split_and!;
         [by rewrite <- app_assoc | by repeat constructor | by intros [? [=]]].
    match goal with |- context [linkedBlobStore.linkBlob ?l ?d [] ?x] =>
      rewrite (linkBlob_single l d x) end. cbn.
    destruct (linkedBlobStore.linkPath lbs (linkedBlobStore.repository lbs) dgst)
      as [p|e|msg]; cbn.
    2,3: exists [OpRepository sourceRepo; OpRepositoryStat repo dgst]; split_and!;
         [by rewrite <- app_assoc | by repeat constructor | by intros [? [=]]].
    destruct (handle (OpLink p dgst) σ2) as [r σ3].
    exists [OpRepository sourceRepo; OpRepositoryStat repo dgst; OpLink p dgst].
    split_and!.
    + destruct r as [[]| |]; cbn; by rewrite <- !app_assoc.
    + by repeat constructor.
    + by intros [? [=]].
Qed.
End single_link.

Section creating.
Context {Σ : Type} `{!Collaborators Σ}.

(** X1. A mount that fails does not fail [Create]: whatever the error, it
    is dropped, and [Create] goes on exactly as a [Create] without options
    would from the state the failed mount left. *)
Theorem Create_falls_back_after_failed_mount (lbs : linkedBlobStore.t Σ)
    (options : list BlobCreateOption) (opts : CreateOptions.t) (from : Canonical)
    (w : World Σ) (e : error) (w1 : World Σ) :
  linkedBlobStore.apply_options options CreateOptions.zero = Ok opts →
  CreateOptions.ShouldMount (CreateOptions.Mount opts) = true →
  CreateOptions.From (CreateOptions.Mount opts) = Some from →
  linkedBlobStore.mount lbs from (reference.Digest from)
      (CreateOptions.Stat (CreateOptions.Mount opts))
      (mkWorld (ext w) (calls w) (logged w ++ ["(*linkedBlobStore).Create"]))
    = (Err e, w1) →
  linkedBlobStore.Create lbs options w =
    linkedBlobStore.Create lbs [] (mkWorld (ext w1) (calls w1) (logged w)).
Proof.
  intros Hopts Hshould Hfrom Hmount.
  pose proof (mount_logged lbs from (reference.Digest from)
                (CreateOptions.Stat (CreateOptions.Mount opts))
                (mkWorld (ext w) (calls w) (logged w ++ ["(*linkedBlobStore).Create"])))
    as Hlog.
  rewrite Hmount in Hlog. cbn in Hlog.
  unfold linkedBlobStore.Create. run. rewrite Hopts. cbn.
  rewrite Hshould, Hfrom. cbn. rewrite Hmount. cbn.
  destruct w1 as [σ1 cs1 ls1]. cbn in *. by subst ls1.
Qed.

(** A [Create] without options that returns an upload, taken apart. *)
Lemma Create_plain_Ok_inv (lbs : linkedBlobStore.t Σ) (w : World Σ) bw w' :
  linkedBlobStore.Create lbs [] w = (Ok bw, w') →
  ∃ sp,
    pathFor (uploadDataPathSpec (linkedBlobStore.repository lbs) (blobWriter.id bw))
      = inr (blobWriter.path bw) ∧
    pathFor (uploadStartedAtPathSpec (linkedBlobStore.repository lbs) (blobWriter.id bw))
      = inr sp ∧
    calls w' = calls w ++
      [OpNewString; OpNow; OpPutContent sp (time_Format (blobWriter.startedAt bw));
       OpWriter (blobWriter.path bw) false] ∧
    blobWriter.resumableDigestEnabled bw = linkedBlobStore.resumableDigestEnabled lbs.
Proof.
  unfold linkedBlobStore.Create, linkedBlobStore.newBlobUpload. run. cbn.
  destruct (handle OpNewString (ext w)) as [uuid σ1]. cbn.
  destruct (handle OpNow σ1) as [now σ2]. cbn.
  destruct (pathFor (uploadDataPathSpec (linkedBlobStore.repository lbs) uuid))
    as [msg|path] eqn:Hpath; cbn; [done |].
  destruct (pathFor (uploadStartedAtPathSpec (linkedBlobStore.repository lbs) uuid))
    as [msg|sp] eqn:Hsp; cbn; [done |].
  destruct (handle (OpPutContent sp (time_Format now)) σ2) as [[e|[]] σ3]; cbn; [done |].
  destruct (handle (OpWriter path false) σ3) as [[e|fw] σ4]; cbn; [done |].
  intros [= <- <-]. cbn. exists sp. by rewrite <- !app_assoc.
Qed.

(** Every [Create] that returns an upload went through the plain path, from
    the state it was called in or from the one a failed mount left. *)
Lemma Create_Ok_plain (lbs : linkedBlobStore.t Σ) options (w : World Σ) bw w' :
  linkedBlobStore.Create lbs options w = (Ok bw, w') →
  ∃ w0 ops, calls w0 = calls w ++ ops ∧
            linkedBlobStore.Create lbs [] w0 = (Ok bw, w').
Proof.
  intros HC.
  destruct (linkedBlobStore.apply_options options CreateOptions.zero) as [opts|e|msg] eqn:Hopts.
  2,3: by revert HC; unfold linkedBlobStore.Create; run; rewrite Hopts.
  destruct (CreateOptions.ShouldMount (CreateOptions.Mount opts)) eqn:Hshould.
  - destruct (CreateOptions.From (CreateOptions.Mount opts)) as [from|] eqn:Hfrom.
    2: by revert HC; unfold linkedBlobStore.Create; run; rewrite Hopts; cbn;
          rewrite Hshould, Hfrom.
    destruct (linkedBlobStore.mount lbs from (reference.Digest from)
                (CreateOptions.Stat (CreateOptions.Mount opts))
                (mkWorld (ext w) (calls w) (logged w ++ ["(*linkedBlobStore).Create"])))
      as [[desc|e|msg] w1] eqn:Hmount.
    1,3: by revert HC; unfold linkedBlobStore.Create; run; rewrite Hopts; cbn;
            rewrite Hshould, Hfrom; cbn; rewrite Hmount.
    pose proof (mount_logged lbs from (reference.Digest from)
                  (CreateOptions.Stat (CreateOptions.Mount opts))
                  (mkWorld (ext w) (calls w) (logged w ++ ["(*linkedBlobStore).Create"])))
      as Hlog.
    destruct (mount_calls lbs from (reference.Digest from)
                (CreateOptions.Stat (CreateOptions.Mount opts))
                (mkWorld (ext w) (calls w) (logged w ++ ["(*linkedBlobStore).Create"])))
      as (ops & Hcalls & _).
    rewrite Hmount in Hlog, Hcalls. cbn in Hlog, Hcalls.
    exists (mkWorld (ext w1) (calls w1) (logged w)), ops. split; [done |].
    rewrite <- HC. symmetry.
    unfold linkedBlobStore.Create. run. rewrite Hopts. cbn.
    rewrite Hshould, Hfrom. cbn. rewrite Hmount. cbn.
    destruct w1 as [σ1 cs1 ls1]. cbn in *. by subst ls1.
  - exists w, []. rewrite app_nil_r. split; [done |].
    rewrite <- HC. unfold linkedBlobStore.Create. run. rewrite Hopts. cbn.
    by rewrite Hshould.
Qed.

(** X2. Every [Create] that returns an upload ends with four calls, in
    this order: a fresh id, the clock, the write of the startedAt file and
    the opening of the data file without append.  The startedAt file is at
    the path resolved for the upload's id and holds the upload's start
    time as formatted; the data path is the one resolved for the same id. *)
Theorem Create_writes_startedat_then_opens_data (lbs : linkedBlobStore.t Σ)
    (options : list BlobCreateOption) (w : World Σ) (bw : blobWriter.t) (w' : World Σ) :
  linkedBlobStore.Create lbs options w = (Ok bw, w') →
  ∃ sp ops,
    pathFor (uploadDataPathSpec (linkedBlobStore.repository lbs) (blobWriter.id bw))
      = inr (blobWriter.path bw) ∧
    pathFor (uploadStartedAtPathSpec (linkedBlobStore.repository lbs) (blobWriter.id bw))
      = inr sp ∧
    calls w' = calls w ++ ops ++
      [OpNewString; OpNow; OpPutContent sp (time_Format (blobWriter.startedAt bw));
       OpWriter (blobWriter.path bw) false] ∧
    blobWriter.resumableDigestEnabled bw = linkedBlobStore.resumableDigestEnabled lbs.
Proof.
  intros (w0 & ops & Hops & HC)%Create_Ok_plain.
  apply Create_plain_Ok_inv in HC as (sp & Hpath & Hsp & Hcalls & Hred).
  exists sp, ops. by rewrite Hcalls, Hops, <- app_assoc.
Qed.

(** X3. [Create] does not clean up after itself.  When the startedAt file
    cannot be written, the error is returned and no data file is opened;
    when the file is written and the data file then cannot be opened, the
    error is returned and the startedAt file stays: the call that wrote it
    is the last but one, and nothing follows the failed opening. *)
Theorem Create_leaves_startedat_behind (lbs : linkedBlobStore.t Σ) (w : World Σ)
    (uuid : string) (σ1 : Σ) (now : Z) (σ2 : Σ) (path sp : string) :
  handle OpNewString (ext w) = (uuid, σ1) →
  handle OpNow σ1 = (now, σ2) →
  pathFor (uploadDataPathSpec (linkedBlobStore.repository lbs) uuid) = inr path →
  pathFor (uploadStartedAtPathSpec (linkedBlobStore.repository lbs) uuid) = inr sp →
  let logged' := logged w ++ ["(*linkedBlobStore).Create"] in
  let written := [OpNewString; OpNow; OpPutContent sp (time_Format now)] in
  (∀ e σ3, handle (OpPutContent sp (time_Format now)) σ2 = (inl e, σ3) →
     linkedBlobStore.Create lbs [] w =
       (Err (DriverError e), mkWorld σ3 (calls w ++ written) logged'))
  ∧ (∀ σ3 e σ4, handle (OpPutContent sp (time_Format now)) σ2 = (inr tt, σ3) →
       handle (OpWriter path false) σ3 = (inl e, σ4) →
       linkedBlobStore.Create lbs [] w =
         (Err (DriverError e),
          mkWorld σ4 (calls w ++ written ++ [OpWriter path false]) logged')).
Proof.
  intros Huuid Hnow Hpath Hsp logged' written. subst logged' written.
  split.
  - intros e σ3 Hput.
    unfold linkedBlobStore.Create, linkedBlobStore.newBlobUpload. run. cbn.
    rewrite Huuid. cbn. rewrite Hnow. cbn. rewrite Hpath. cbn. rewrite Hsp. cbn.
    rewrite Hput. cbn. by rewrite <- !app_assoc.
  - intros σ3 e σ4 Hput Hwriter.
    unfold linkedBlobStore.Create, linkedBlobStore.newBlobUpload. run. cbn.
    rewrite Huuid. cbn. rewrite Hnow. cbn. rewrite Hpath. cbn. rewrite Hsp. cbn.
    rewrite Hput. cbn. rewrite Hwriter. cbn. by rewrite <- !app_assoc.
Qed.
End creating.

Section resuming_created.
Context {Σ : Type} `{!Collaborators Σ}.

(** X4. An upload returned by [Create] can be resumed under its id: if the
    startedAt file reads back as it was written, the timestamp format
    parses back to [t], and the data file opens for append, [Resume]
    returns an upload with the same id, the same data path and the same
    resumable-digest setting, started at [t]; it reads the startedAt file
    and opens the data file in append mode, nothing else. *)
Theorem Resume_recovers_created_upload (lbs : linkedBlobStore.t Σ)
    (options : list BlobCreateOption) (w : World Σ) (bw : blobWriter.t) (w' : World Σ)
    (sp : string) (σ1 : Σ) (t : Z) (fw : nat) (σ2 : Σ) :
  linkedBlobStore.Create lbs options w = (Ok bw, w') →
  pathFor (uploadStartedAtPathSpec (linkedBlobStore.repository lbs) (blobWriter.id bw))
    = inr sp →
  handle (OpGetContent sp) (ext w') = (inr (time_Format (blobWriter.startedAt bw)), σ1) →
  time_Parse (time_Format (blobWriter.startedAt bw)) = inr t →
  handle (OpWriter (blobWriter.path bw) true) σ1 = (inr fw, σ2) →
  linkedBlobStore.Resume lbs (blobWriter.id bw) w' =
    (Ok (blobWriter.mk (blobWriter.id bw) t fw (blobWriter.path bw)
           (blobWriter.resumableDigestEnabled bw)),
     mkWorld σ2
       (calls w' ++ [OpGetContent sp; OpWriter (blobWriter.path bw) true])
       (logged w' ++ ["(*linkedBlobStore).Resume"])).
Proof.
  intros (w0 & ops & _ & HC)%Create_Ok_plain Hsp Hget Hparse Hwriter.
  apply Create_plain_Ok_inv in HC as (sp' & Hpath & _ & _ & Hred).
  unfold linkedBlobStore.Resume, linkedBlobStore.newBlobUpload. run. cbn.
  rewrite Hsp. cbn. rewrite Hget. cbn. rewrite Hparse. cbn. rewrite Hpath. cbn.
  rewrite Hwriter. cbn. by rewrite Hred, <- app_assoc.
Qed.

(** X5. [Resume] only reads: whatever happens, it calls the driver at most
    twice, first to read a startedAt file and then to open a data file in
    append mode.  It never writes a startedAt file, allocates an id or
    deletes. *)
Theorem Resume_reads_then_appends (lbs : linkedBlobStore.t Σ) (id : string) (w : World Σ) :
  ∃ ops,
    calls (linkedBlobStore.Resume lbs id w).2 = calls w ++ ops ∧
    (ops = [] ∨
     (∃ sp, ops = [OpGetContent sp]) ∨
     (∃ sp path, ops = [OpGetContent sp; OpWriter path true])).
Proof.
  unfold linkedBlobStore.Resume, linkedBlobStore.newBlobUpload. run. cbn.
  destruct (pathFor (uploadStartedAtPathSpec (linkedBlobStore.repository lbs) id))
    as [msg|sp]; cbn.
  { exists []. rewrite app_nil_r. by split; [| left]. }
  destruct (handle (OpGetContent sp) (ext w)) as [[e|content] σ1]; cbn.
  { exists [OpGetContent sp]. split; [by destruct e | right; left; by exists sp]. }
  destruct (time_Parse content) as [msg|t]; cbn.
  { exists [OpGetContent sp]. split; [done | right; left; by exists sp]. }
  destruct (pathFor (uploadDataPathSpec (linkedBlobStore.repository lbs) id))
    as [msg|path]; cbn.
  { exists [OpGetContent sp]. split; [done | right; left; by exists sp]. }
  destruct (handle (OpWriter path true) σ1) as [[e|fw] σ2]; cbn;
    (exists [OpGetContent sp; OpWriter path true];
     split; [by rewrite <- app_assoc | right; right; by exists sp, path]).
Qed.
End resuming_created.

Section options.
Context {Σ : Type} `{!Collaborators Σ}.

Lemma apply_options_app (pre post : list BlobCreateOption) (opts : CreateOptions.t) :
  linkedBlobStore.apply_options (pre ++ post) opts =
    match linkedBlobStore.apply_options pre opts with
    | Ok opts' => linkedBlobStore.apply_options post opts'
    | Err e => Err e
    | Panic msg => Panic msg
    end.
Proof.
  revert opts. induction pre as [|option pre IH]; intros opts; cbn; [done |].
  by destruct (option opts).
Qed.

(** X6. Options are applied in order and the last word counts: after any
    options that apply without error, [WithMountFrom ref] leaves a request
    to mount from [ref], whatever source an earlier option named, and
    keeps the descriptor an earlier option supplied. *)
Theorem WithMountFrom_overrides_earlier_options (options : list BlobCreateOption)
    (opts : CreateOptions.t) (ref : Canonical) :
  linkedBlobStore.apply_options options CreateOptions.zero = Ok opts →
  linkedBlobStore.apply_options (options ++ [linkedBlobStore.WithMountFrom ref])
      CreateOptions.zero
    = Ok (CreateOptions.mk
            (CreateOptions.mkMount true (Some ref)
               (CreateOptions.Stat (CreateOptions.Mount opts)))).
Proof. intros Hopts. by rewrite apply_options_app, Hopts. Qed.

(** X7. An option that fails ends [Create] before anything is done: the
    option's error is returned, the options after it are not applied, no
    mount is attempted and no collaborator is called. *)
Theorem Create_stops_at_failing_option (lbs : linkedBlobStore.t Σ)
    (pre post : list BlobCreateOption) (bad : BlobCreateOption)
    (opts : CreateOptions.t) (e : error) (w : World Σ) :
  linkedBlobStore.apply_options pre CreateOptions.zero = Ok opts →
  bad opts = Err e →
  linkedBlobStore.Create lbs (pre ++ bad :: post) w =
    (Err e, mkWorld (ext w) (calls w) (logged w ++ ["(*linkedBlobStore).Create"])).
Proof.
  intros Hpre Hbad. unfold linkedBlobStore.Create. run.
  rewrite apply_options_app, Hpre. cbn. by rewrite Hbad.
Qed.
End options.

Section unlinking.
Context {Σ : Type} `{!Collaborators Σ}.

(** X8. [Delete] removes the link of the digest it was asked about, and
    only that: with deletion enabled and the link-backed statter, when the
    link of [dgst] holds [target] and the global statter knows [target],
    the one driver delete is at [dgst]'s own link path (also when
    [target] differs from [dgst]), and its outcome is [Delete]'s.  The
    global store is only asked to stat. *)
Theorem Delete_removes_the_requested_link (lbs : linkedBlobStore.t Σ)
    (st : linkedBlobStatter.t) (dgst : Digest) (w : World Σ)
    (p : string) (target : Digest) (σ1 : Σ) (desc : Descriptor) (σ2 : Σ)
    (r : driver_error + unit) (σ3 : Σ) :
  linkedBlobStore.deleteEnabled lbs = true →
  linkedBlobStore.blobAccessController lbs = linkedBlobStatter.service st →
  linkedBlobStatter.linkPath st (linkedBlobStatter.repository st) dgst = Ok p →
  handle (OpReadlink p) (ext w) = (Ok target, σ1) →
  handle (OpStatterStat target) σ1 = (Ok desc, σ2) →
  handle (OpDelete p) σ2 = (r, σ3) →
  linkedBlobStore.Delete lbs dgst w =
    (match r with inr _ => Ok tt | inl e => Err (DriverError e) end,
     mkWorld σ3 (calls w ++ [OpReadlink p; OpStatterStat target; OpDelete p])
       (logged w ++ cross_digest_warning dgst target)).
Proof.
  intros Hd Hc Hp Hl Hs Hdel.
  pose proof (statter_Stat_link_read st dgst w p target σ1 (Ok desc) σ2 Hp Hl Hs) as HS.
  unfold linkedBlobStore.Delete. rewrite Hd, Hc. cbn.
  rewrite (bind_Ok _ _ _ _ _ HS).
  unfold linkedBlobStatter.Clear. run. rewrite Hp. cbn. rewrite Hdel.
  destruct r as [e|[]]; cbn; by rewrite <- app_assoc.
Qed.

(** X9. A stale link cannot be deleted through [Delete]: when the link of
    [dgst] exists but the global statter fails on its target, [Delete]
    returns the statter's error and the link stays; the driver is never
    asked to delete. *)
Theorem Delete_keeps_a_stale_link (lbs : linkedBlobStore.t Σ)
    (st : linkedBlobStatter.t) (dgst : Digest) (w : World Σ)
    (p : string) (target : Digest) (σ1 : Σ) (e : error) (σ2 : Σ) :
  linkedBlobStore.deleteEnabled lbs = true →
  linkedBlobStore.blobAccessController lbs = linkedBlobStatter.service st →
  linkedBlobStatter.linkPath st (linkedBlobStatter.repository st) dgst = Ok p →
  handle (OpReadlink p) (ext w) = (Ok target, σ1) →
  handle (OpStatterStat target) σ1 = (Err e, σ2) →
  linkedBlobStore.Delete lbs dgst w =
    (Err e,
     mkWorld σ2 (calls w ++ [OpReadlink p; OpStatterStat target])
       (logged w ++ cross_digest_warning dgst target)).
Proof.
  intros Hd Hc Hp Hl Hs.
  pose proof (statter_Stat_link_read st dgst w p target σ1 (Err e) σ2 Hp Hl Hs) as HS.
  unfold linkedBlobStore.Delete. rewrite Hd, Hc. cbn.
  by rewrite (bind_Err _ _ _ _ _ HS).
Qed.

(** X10. [linkedBlobStatter.Stat] turns only path-not-found into
    [ErrBlobUnknown].  When the link path cannot be resolved, that error
    is returned and nothing is read; when reading the link fails in any
    other way, the failure is returned as it is and the global statter is
    not asked. *)
Theorem statter_Stat_returns_other_errors (lbs : linkedBlobStatter.t) (dgst : Digest)
    (w : World Σ) :
  (∀ e, linkedBlobStatter.linkPath lbs (linkedBlobStatter.repository lbs) dgst = Err e →
     linkedBlobStatter.Stat lbs dgst w = (Err e, w))
  ∧ (∀ p e σ1,
       linkedBlobStatter.linkPath lbs (linkedBlobStatter.repository lbs) dgst = Ok p →
       handle (OpReadlink p) (ext w) = (Err e, σ1) →
       (∀ q, e ≠ DriverError (PathNotFoundError q)) →
       linkedBlobStatter.Stat lbs dgst w =
         (Err e, mkWorld σ1 (calls w ++ [OpReadlink p]) (logged w))).
Proof.
  split.
  - intros e Hp. unfold linkedBlobStatter.Stat. run. by rewrite Hp.
  - intros p e σ1 Hp Hl Hne. unfold linkedBlobStatter.Stat. run. rewrite Hp, Hl.
    destruct e as [| | | | [q|] | | |]; try done. by destruct (Hne q).
Qed.
End unlinking.

Section mounting_more.
Context {Σ : Type} `{!Collaborators Σ}.

(** X11. A descriptor supplied to [mount] is taken on trust: the registry
    and the source repository are never asked, whatever the outcome; the
    only call [mount] can make is one link of the requested digest. *)
Theorem mount_trusts_supplied_descriptor (lbs : linkedBlobStore.t Σ)
    (sourceRepo : Canonical) (dgst : Digest) (given : Descriptor) (w : World Σ) :
  ∃ ops,
    calls (linkedBlobStore.mount lbs sourceRepo dgst (Some given) w).2 = calls w ++ ops ∧
    Forall (λ o, ∃ p, o = OpLink p dgst) ops ∧
    (length ops ≤ 1)%nat.
Proof.
  destruct (mount_calls lbs sourceRepo dgst (Some given) w) as (ops & Hc & _ & Hlink).
  exists ops. destruct Hlink as [Hall Hlen]; [by eexists |]. done.
Qed.

(** X12. Without a supplied descriptor [mount] links nothing unless the
    source repository knows the blob: when the registry cannot give the
    source repository, or the blob cannot be statted there, [mount]
    returns that error right after the failed call. *)
Theorem mount_links_nothing_without_source (lbs : linkedBlobStore.t Σ)
    (sourceRepo : Canonical) (dgst : Digest) (w : World Σ) :
  (∀ e σ1, handle (OpRepository sourceRepo) (ext w) = (Err e, σ1) →
     linkedBlobStore.mount lbs sourceRepo dgst None w =
       (Err e, mkWorld σ1 (calls w ++ [OpRepository sourceRepo]) (logged w)))
  ∧ (∀ repo σ1 e σ2,
       handle (OpRepository sourceRepo) (ext w) = (Ok repo, σ1) →
       handle (OpRepositoryStat repo dgst) σ1 = (Err e, σ2) →
       linkedBlobStore.mount lbs sourceRepo dgst None w =
         (Err e,
          mkWorld σ2 (calls w ++ [OpRepository sourceRepo; OpRepositoryStat repo dgst])
            (logged w))).
Proof.
  split.
  - intros e σ1 Hrepo. unfold linkedBlobStore.mount. run. by rewrite Hrepo.
  - intros repo σ1 e σ2 Hrepo Hstat. unfold linkedBlobStore.mount. run.
    rewrite Hrepo. cbn. rewrite Hstat. cbn. by rewrite <- app_assoc.
Qed.

(** X13. [linkBlob] links the canonical digest before any alias.  When the
    canonical link path cannot be resolved nothing is linked; otherwise
    the first call is the canonical link; and when that link fails no
    alias is linked. *)
Theorem linkBlob_links_canonical_first (lbs : linkedBlobStore.t Σ)
    (canonical : Descriptor) (aliases : list Digest) (w : World Σ) :
  let out := linkedBlobStore.linkBlob lbs canonical aliases w in
  let path := linkedBlobStore.linkPath lbs (linkedBlobStore.repository lbs)
                (v1.Digest canonical) in
  (∀ e, path = Err e → out = (Err e, w))
  ∧ (∀ p, path = Ok p →
       ∃ rest, calls out.2 = calls w ++ OpLink p (v1.Digest canonical) :: rest)
  ∧ (∀ p e σ1, path = Ok p →
       handle (OpLink p (v1.Digest canonical)) (ext w) = (Err e, σ1) →
       out = (Err e, mkWorld σ1 (calls w ++ [OpLink p (v1.Digest canonical)]) (logged w))).
Proof.
  intros out path. subst out path. unfold linkedBlobStore.linkBlob. cbn.
  destruct (decide (v1.Digest canonical ∈ (∅ : gset Digest))) as [Hin|_];
    [by apply elem_of_empty in Hin |].
  split_and!.
  - intros e Hp. run. by rewrite Hp.
  - intros p Hp. run. rewrite Hp. cbn.
    destruct (handle (OpLink p (v1.Digest canonical)) (ext w)) as [[[]|e|msg] σ1]; cbn.
    2,3: by exists [].
    destruct (linkBlob_loop_calls lbs canonical aliases ({[v1.Digest canonical]} ∪ ∅)
                (mkWorld σ1 (calls w ++ [OpLink p (v1.Digest canonical)]) (logged w)))
      as (linked & ops & Hc & _).
    cbn in Hc. exists ops. by rewrite Hc, <- app_assoc.
  - intros p e σ1 Hp Hlink. run. by rewrite Hp; cbn; rewrite Hlink.
Qed.
End mounting_more.

Section enumerating_more.
Context {Σ : Type} `{!Collaborators Σ}.

(** X14. [Enumerate] resolves what a link file holds, not the digest the
    file is filed under: a link whose target digest has no link of its own
    in the repository is passed over in silence.  The global statter is
    not asked and the ingestor is not called, whether or not the blob
    exists globally. *)
Theorem Enumerate_skips_target_without_own_link (lbs : linkedBlobStore.t Σ)
    (st : linkedBlobStatter.t) (ingestor : Digest → M Σ unit) (fileInfo : FileInfo)
    (w : World Σ) (d : Digest) (σ1 : Σ) (p q : string) (σ2 : Σ) :
  linkedBlobStore.blobAccessController lbs = linkedBlobStatter.service st →
  is_link fileInfo →
  handle (OpReadlink (Path fileInfo)) (ext w) = (Ok d, σ1) →
  linkedBlobStatter.linkPath st (linkedBlobStatter.repository st) d = Ok p →
  handle (OpReadlink p) σ1 = (Err (DriverError (PathNotFoundError q)), σ2) →
  linkedBlobStore.Enumerate_visit lbs ingestor fileInfo w =
    (Ok tt, mkWorld σ2 (calls w ++ [OpReadlink (Path fileInfo); OpReadlink p]) (logged w)).
Proof.
  intros Hc Hlink Hread Hp Habsent.
  rewrite (Enumerate_visit_link _ _ _ _ Hlink).
  erewrite bind_Ok; [| unfold blobStore_readlink, call; by rewrite Hread].
  unfold mbind, M_bind, attempt.
  erewrite (Stat_link_absent lbs st d _ p q σ2 Hc Hp); [| done].
  cbn. by rewrite <- app_assoc.
Qed.
End enumerating_more.

Section putting.
Context {Σ : Type} `{!Collaborators Σ}.
Variable digest_FromBytes : string → Digest.
Variable blobStore_Put : string → string → M Σ Descriptor.
Variable Error : error → string.

Local Arguments linkedBlobStore.linkBlob : simpl never.

(** X15. [Put] stores first and links second.  When the global store
    refuses the bytes, [Put] logs the error and returns it, and nothing is
    linked.  When the store returns [desc], with the link-backed statter
    the one call that follows links [desc]'s digest, the digest the store
    reported rather than one computed from the bytes, and [Put] returns
    [desc] if that link succeeds and the link's error if not. *)
Theorem Put_links_what_the_store_returned (lbs : linkedBlobStore.t Σ)
    (mediaType p : string) (w : World Σ) :
  let out := linkedBlobStore.Put digest_FromBytes blobStore_Put Error lbs mediaType p w in
  (∀ e w1, blobStore_Put mediaType p w = (Err e, w1) →
     out = (Err e,
            mkWorld (ext w1) (calls w1)
              (logged w1 ++ ["error putting into main store: " +:+ Error e])))
  ∧ (∀ st desc w1 path r σ2,
       linkedBlobStore.blobAccessController lbs = linkedBlobStatter.service st →
       blobStore_Put mediaType p w = (Ok desc, w1) →
       linkedBlobStore.linkPath lbs (linkedBlobStore.repository lbs) (v1.Digest desc)
         = Ok path →
       handle (OpLink path (v1.Digest desc)) (ext w1) = (r, σ2) →
       out = (match r with Ok _ => Ok desc | Err e => Err e | Panic msg => Panic msg end,
              mkWorld σ2 (calls w1 ++ [OpLink path (v1.Digest desc)]) (logged w1))).
Proof.
  intros out. subst out. unfold linkedBlobStore.Put. split.
  - intros e w1 HP. unfold mbind, M_bind, attempt. rewrite HP. by run.
  - intros st desc w1 path r σ2 Hc HP Hpath Hlink.
    unfold mbind, M_bind, attempt. rewrite HP, Hc. cbn.
    rewrite linkBlob_single, Hpath, Hlink. by destruct r as [[]| |].
Qed.
End putting.

(** * Properties of the request and response contexts *)

Section int64.
Import dcontext.

Lemma wrap64_range z : - 2 ^ 63 ≤ wrap64 z < 2 ^ 63.
Proof.
  unfold wrap64. pose proof (Z.mod_pos_bound (z + 2 ^ 63) (2 ^ 64)). lia.
Qed.

Lemma wrap64_small z : - 2 ^ 63 ≤ z < 2 ^ 63 → wrap64 z = z.
Proof. intros Hz. unfold wrap64. rewrite Z.mod_small; lia. Qed.

Lemma wrap64_add z n : wrap64 (wrap64 z + n) = wrap64 (z + n).
Proof.
  unfold wrap64. f_equal.
  replace ((z + 2 ^ 63) `mod` 2 ^ 64 - 2 ^ 63 + n + 2 ^ 63)
    with ((z + 2 ^ 63) `mod` 2 ^ 64 + n) by lia.
  rewrite Zplus_mod_idemp_l. f_equal. lia.
Qed.
End int64.

Section response_writer.
Import dcontext.
Context {RW : Type} `{!http.ResponseWriter RW}.
Variable requestutil_RemoteAddr : http.Request → string.

Lemma cells_set_cell (h : heap RW) irw c : cells (set_cell h irw c) irw = c.
Proof. unfold set_cell. cbn. by rewrite decide_True. Qed.

Local Arguments set_cell : simpl never.

Lemma written_after_call irw c (h : heap RW) :
  written (cells (after_call irw c h) irw) =
    match c with
    | Writes p =>
        wrap64 (written (cells h irw) + (instrumentedResponseWriter_Write irw p h).1.1)
    | _ => written (cells h irw)
    end.
Proof.
  destruct c as [p|s|]; unfold after_call.
  - unfold instrumentedResponseWriter_Write.
    destruct (http.Write p (ResponseWriter (cells h irw))) as [[n err] w]. cbn.
    by rewrite cells_set_cell.
  - unfold instrumentedResponseWriter_WriteHeader. by rewrite cells_set_cell.
  - unfold instrumentedResponseWriter_Flush.
    destruct http.Flusher; [by rewrite cells_set_cell | done].
Qed.

Lemma status_after_call irw c (h : heap RW) :
  status (cells (after_call irw c h) irw) =
    match c with
    | Writes _ => if decide (status (cells h irw) = 0) then 200 else status (cells h irw)
    | WritesHeader s => s
    | Flushes => status (cells h irw)
    end.
Proof.
  destruct c as [p|s|]; unfold after_call.
  - unfold instrumentedResponseWriter_Write.
    destruct (http.Write p (ResponseWriter (cells h irw))) as [[n err] w]. cbn.
    by rewrite cells_set_cell.
  - unfold instrumentedResponseWriter_WriteHeader. by rewrite cells_set_cell.
  - unfold instrumentedResponseWriter_Flush.
    destruct http.Flusher; [by rewrite cells_set_cell | done].
Qed.

Lemma written_after_calls irw cs : ∀ h : heap RW,
  - 2 ^ 63 ≤ written (cells h irw) < 2 ^ 63 →
  written (cells (after_calls irw cs h) irw) =
    wrap64 (written (cells h irw) + total_of (reported irw cs h)).
Proof.
  induction cs as [|c cs IH]; intros h Hr.
  - cbn. by rewrite Z.add_0_r, wrap64_small.
  - change (after_calls irw (c :: cs) h) with (after_calls irw cs (after_call irw c h)).
    pose proof (written_after_call irw c h) as Hc.
    rewrite IH.
    + rewrite Hc. destruct c as [p|s|]; cbn; [| done | done].
      rewrite wrap64_add. f_equal. unfold total_of. lia.
    + rewrite Hc. destruct c; [apply wrap64_range | done | done].
Qed.

Lemma status_without_header irw cs : ∀ h : heap RW,
  forallb (λ c, negb (is_header c)) cs = true →
  status (cells (after_calls irw cs h) irw) =
    if decide (status (cells h irw) = 0)
    then (if existsb is_write cs then 200 else 0)
    else status (cells h irw).
Proof.
  induction cs as [|c cs IH]; intros h Hcs.
  - cbn. by destruct (decide _).
  - change (after_calls irw (c :: cs) h) with (after_calls irw cs (after_call irw c h)).
    cbn in Hcs. apply andb_prop in Hcs as [Hc Hcs].
    rewrite (IH _ Hcs), (status_after_call irw c h).
    destruct c as [p|s|]; [| done |]; cbn.
    + destruct (decide (status (cells h irw) = 0)) as [Hs|Hs].
      * by rewrite decide_False.
      * by rewrite decide_False.
    + done.
Qed.

Lemma Value_response (h : heap RW) parent irw :
  Value requestutil_RemoteAddr h (instrumentedResponseWriter parent irw)
    (KString "http.response") = VResponseWriter (Instrumented irw).
Proof. reflexivity. Qed.

Lemma Value_written (h : heap RW) parent irw :
  Value requestutil_RemoteAddr h (instrumentedResponseWriter parent irw)
    (KString "http.response.written") = VInt64 (written (cells h irw)).
Proof. reflexivity. Qed.

Lemma Value_status (h : heap RW) parent irw :
  Value requestutil_RemoteAddr h (instrumentedResponseWriter parent irw)
    (KString "http.response.status") = VInt (status (cells h irw)).
Proof. reflexivity. Qed.

Lemma Value_response_vars (h : heap RW) parent vars :
  Value requestutil_RemoteAddr h (muxVarsContext parent vars) (KString "http.response")
    = match vars !! "http.response" with
      | Some v => VString v
      | None => Value requestutil_RemoteAddr h parent (KString "http.response")
      end.
Proof. reflexivity. Qed.

Lemma Value_response_request (h : heap RW) parent startedAt id r :
  Value requestutil_RemoteAddr h (httpRequestContext parent startedAt id r)
    (KString "http.response")
    = Value requestutil_RemoteAddr h parent (KString "http.response").
Proof. reflexivity. Qed.

(** An instrumented writer hands every call to the writer it wraps and
    returns what that writer returns. *)
Lemma Write_passes_through irw p (h : heap RW) :
  (instrumentedResponseWriter_Write irw p h).1 = (http.Write p (ResponseWriter (cells h irw))).1.
Proof.
  unfold instrumentedResponseWriter_Write.
  by destruct (http.Write p (ResponseWriter (cells h irw))) as [[n err] w].
Qed.

Lemma wrapped_after_call irw c (h : heap RW) :
  ResponseWriter (cells (after_call irw c h) irw)
    = wrapped_after c (ResponseWriter (cells h irw)).
Proof.
  destruct c as [p|s|]; unfold after_call, wrapped_after.
  - unfold instrumentedResponseWriter_Write.
    destruct (http.Write p (ResponseWriter (cells h irw))) as [[n err] w]. cbn.
    by rewrite cells_set_cell.
  - unfold instrumentedResponseWriter_WriteHeader. by rewrite cells_set_cell.
  - unfold instrumentedResponseWriter_Flush.
    destruct http.Flusher; [by rewrite cells_set_cell | done].
Qed.

Lemma calls_reach_wrapped irw cs : ∀ h : heap RW,
  reported irw cs h = wrapped_counts cs (ResponseWriter (cells h irw))
  ∧ ResponseWriter (cells (after_calls irw cs h) irw)
    = foldl (λ rw c, wrapped_after c rw) (ResponseWriter (cells h irw)) cs.
Proof.
  induction cs as [|c cs IH]; intros h; [done |].
  change (after_calls irw (c :: cs) h) with (after_calls irw cs (after_call irw c h)).
  destruct (IH (after_call irw c h)) as [Hcounts Hstate].
  cbn [reported wrapped_counts foldl].
  rewrite Hcounts, Hstate, wrapped_after_call. split; [| done].
  destruct c as [p|s|]; [| done | done]. by rewrite Write_passes_through.
Qed.

(** X16. The context of a fresh instrumented writer over the writer [w]
    reports, under "http.response.written", the sum of the counts that [w]
    itself returns for the writes made since, wrapped around as an
    [int64]: the counts of the wrapped writer, not the lengths of the
    payloads, and also the counts of the writes that returned an error;
    headers and flushes do not count.  The wrapped writer has seen exactly
    the calls made on the instrumented one, and every write returned the
    count the wrapped writer returned. *)
Theorem written_sums_reported_counts (ctx : Context) (w : RW) (h : heap RW)
    (cs : list writer_call) :
  let '((ctx', irw), h') := WithResponseWriter ctx w h in
  Value requestutil_RemoteAddr (after_calls irw cs h') ctx' (KString "http.response.written")
    = VInt64 (wrap64 (total_of (wrapped_counts cs w)))
  ∧ ResponseWriter (cells (after_calls irw cs h') irw)
    = foldl (λ rw c, wrapped_after c rw) w cs
  ∧ reported irw cs h' = wrapped_counts cs w.
Proof.
  unfold WithResponseWriter. rewrite Value_written.
  match goal with |- context [after_calls ?irw cs ?h'] =>
    destruct (calls_reach_wrapped irw cs h') as [Hcounts Hstate];
    rewrite (written_after_calls irw cs h')
  end.
  - rewrite Hcounts, Hstate. cbn [cells]. rewrite decide_True by done.
    cbn [written ResponseWriter]. by rewrite Z.add_0_l.
  - cbn [cells]. rewrite decide_True by done. cbn [written]. lia.
Qed.

(** X17. The status an instrumented writer shows is the one of the last
    [WriteHeader], whatever was written before it; a [Write] only guesses
    200 when the status is still 0.  So after a [WriteHeader] with a
    status other than 0 later writes keep it, after [WriteHeader 0] the
    next write turns it to 200, and a writer with no [WriteHeader] at all
    keeps the status it had unless that was 0 and something was written. *)
Theorem status_follows_last_WriteHeader (parent : Context) (irw : pointer) (h : heap RW)
    (pre post : list writer_call) (s : Z) :
  forallb (λ c, negb (is_header c)) post = true →
  Value requestutil_RemoteAddr (after_calls irw (pre ++ WritesHeader s :: post) h)
      (instrumentedResponseWriter parent irw) (KString "http.response.status")
    = VInt (if decide (s = 0) then (if existsb is_write post then 200 else 0) else s)
  ∧ Value requestutil_RemoteAddr (after_calls irw post h)
      (instrumentedResponseWriter parent irw) (KString "http.response.status")
    = VInt (if decide (status (cells h irw) = 0)
            then (if existsb is_write post then 200 else 0)
            else status (cells h irw)).
Proof.
  intros Hpost. rewrite !Value_status. split; f_equal.
  - unfold after_calls. rewrite foldl_app. cbn [foldl after_call].
    fold (after_calls irw pre h).
    fold (after_calls irw post
            (instrumentedResponseWriter_WriteHeader irw s (after_calls irw pre h))).
    rewrite (status_without_header irw post _ Hpost).
    unfold instrumentedResponseWriter_WriteHeader. by rewrite cells_set_cell.
  - by apply status_without_header.
Qed.

(** X18. [WithResponseWriter] and [GetResponseWriter] are a round trip:
    the context returned answers [GetResponseWriter] with the instrumented
    writer that was returned beside it, not with the writer that was
    wrapped, and shows a status of 0 and 0 bytes written until the
    writer is used. *)
Theorem GetResponseWriter_after_WithResponseWriter (ctx : Context) (w : RW) (h : heap RW) :
  let '((ctx', irw), h') := WithResponseWriter ctx w h in
  GetResponseWriter requestutil_RemoteAddr h' ctx' = Ok (Instrumented irw)
  ∧ Value requestutil_RemoteAddr h' ctx' (KString "http.response.status") = VInt 0
  ∧ Value requestutil_RemoteAddr h' ctx' (KString "http.response.written") = VInt64 0
  ∧ ResponseWriter (cells h' irw) = w.
Proof.
  unfold WithResponseWriter, GetResponseWriter.
  rewrite Value_response, Value_status, Value_written. cbn [cells].
  by rewrite decide_True.
Qed.

(** X19. [GetResponseWriter] looks through a request context, but a route
    variable named "http.response" hides the response writer: behind a
    [muxVarsContext] with such a variable the writer is not found,
    whatever the embedded context holds. *)
Theorem GetResponseWriter_through_contexts (parent : Context) (h : heap RW)
    (vars : gmap string string) (startedAt : Time) (id : string) (r : http.Request) :
  GetResponseWriter requestutil_RemoteAddr h (httpRequestContext parent startedAt id r)
    = GetResponseWriter requestutil_RemoteAddr h parent
  ∧ GetResponseWriter requestutil_RemoteAddr h (muxVarsContext parent vars)
    = match vars !! "http.response" with
      | Some _ => Err ErrNoResponseWriterContext
      | None => GetResponseWriter requestutil_RemoteAddr h parent
      end.
Proof.
  unfold GetResponseWriter. rewrite Value_response_request, Value_response_vars.
  split; [done |]. by destruct (vars !! "http.response").
Qed.
End response_writer.

Section request_contexts.
Import dcontext.
Context {RW : Type} `{!http.ResponseWriter RW}.
Context {Σ : Type} `{!Collaborators Σ}.
Variable requestutil_RemoteAddr : http.Request → string.

Lemma strings_TrimPrefix_app (prefix s : string) :
  strings_TrimPrefix (prefix +:+ s) prefix = s.
Proof.
  unfold strings_TrimPrefix.
  assert (Hp : String.prefix prefix (prefix +:+ s) = true).
  { induction prefix as [|a prefix IH]; [by destruct s |].
    change (String a prefix +:+ s) with (String a (prefix +:+ s)). cbn.
    by destruct (Ascii.ascii_dec a a). }
  rewrite Hp. clear Hp. induction prefix as [|a prefix IH]; [by destruct s |].
  change (String a prefix +:+ s) with (String a (prefix +:+ s)). cbn. apply IH.
Qed.

(** X20. In the context [WithVars] returns a route variable answers under
    two keys.  The key "vars." followed by [name] is answered by the
    variable [name] when the request has one, and by the embedded context
    otherwise.  The bare key [name] is answered by the same variable, so
    that a variable hides what the embedded context holds under its name,
    unless [name] is "vars" or itself starts with "vars.". *)
Theorem route_variable_answers_two_keys (getVarsFromRequest : http.Request → gmap string string)
    (parent : Context) (h : heap RW) (r : http.Request) (name : string) :
  let vars := getVarsFromRequest r in
  let ctx := WithVars getVarsFromRequest parent r in
  Value requestutil_RemoteAddr h ctx (KString ("vars." +:+ name))
    = match vars !! name with
      | Some v => VString v
      | None => Value requestutil_RemoteAddr h parent (KString ("vars." +:+ name))
      end
  ∧ (∀ v, vars !! name = Some v → name ≠ "vars" → String.prefix "vars." name = false →
       Value requestutil_RemoteAddr h ctx (KString name) = VString v).
Proof.
  intros vars ctx. subst ctx. unfold WithVars. fold vars.
  split.
  - cbn. rewrite decide_False by (by cbv [append]).
    by rewrite (strings_TrimPrefix_app "vars." name).
  - intros v Hv Hname Hprefix. cbn. rewrite decide_False by done.
    unfold strings_TrimPrefix. by rewrite Hprefix, Hv.
Qed.

Lemma Value_request_not_Nil (h : heap RW) (ctx : Context) :
  carries_request ctx = true →
  Value requestutil_RemoteAddr h ctx (KString "http.request") ≠ Nil.
Proof.
  induction ctx as [f|parent IH startedAt id r|parent IH vars|parent IH irw];
    intros Hc; cbn [carries_request] in Hc; [done | | |].
  - change (Value requestutil_RemoteAddr h (httpRequestContext parent startedAt id r)
              (KString "http.request")) with (VRequest r).
    done.
  - change (Value requestutil_RemoteAddr h (muxVarsContext parent vars)
              (KString "http.request"))
      with (match vars !! "http.request" with
            | Some v => VString v
            | None => Value requestutil_RemoteAddr h parent (KString "http.request")
            end).
    destruct (vars !! "http.request"); [done | by apply IH].
  - change (Value requestutil_RemoteAddr h (instrumentedResponseWriter parent irw)
              (KString "http.request"))
      with (Value requestutil_RemoteAddr h parent (KString "http.request")).
    by apply IH.
Qed.

(** X21. One request per context: on a context that carries a request,
    itself or below route variables and instrumented writers layered on
    it, [WithRequest] panics, before the clock is read or an id is made. *)
Theorem WithRequest_panics_on_second_request (h : heap RW) (ctx : Context)
    (r : http.Request) (w : World Σ) :
  carries_request ctx = true →
  WithRequest requestutil_RemoteAddr h ctx r w
    = (Panic "only one request per context", w).
Proof.
  intros Hc. pose proof (Value_request_not_Nil h ctx Hc) as Hv.
  unfold WithRequest.
  by destruct (Value requestutil_RemoteAddr h ctx (KString "http.request")).
Qed.

(** X22. On a context without a request [WithRequest] reads the clock,
    then makes an id, and nothing else; the context it returns answers
    "http.request" with the request, "http.request.id" with the id made
    and "http.request.startedat" with the time read, and keeps the
    embedded context for every key that is not a string. *)
Theorem WithRequest_stamps_the_request (h : heap RW) (ctx : Context) (r : http.Request)
    (w : World Σ) (now : Time) (σ1 : Σ) (uuid : string) (σ2 : Σ) :
  Value requestutil_RemoteAddr h ctx (KString "http.request") = Nil →
  handle OpNow (ext w) = (now, σ1) →
  handle OpNewString σ1 = (uuid, σ2) →
  ∃ ctx',
    WithRequest requestutil_RemoteAddr h ctx r w
      = (Ok ctx', mkWorld σ2 (calls w ++ [OpNow; OpNewString]) (logged w)) ∧
    Value requestutil_RemoteAddr h ctx' (KString "http.request") = VRequest r ∧
    Value requestutil_RemoteAddr h ctx' (KString "http.request.id") = VString uuid ∧
    Value requestutil_RemoteAddr h ctx' (KString "http.request.startedat") = VTime now ∧
    (∀ tag, Value requestutil_RemoteAddr h ctx' (KOther tag)
            = Value requestutil_RemoteAddr h ctx (KOther tag)).
Proof.
  intros Hnil Hnow Hid. exists (httpRequestContext ctx now uuid r).
  split; [| by repeat split].
  unfold WithRequest. rewrite Hnil. run. rewrite Hnow. cbn. rewrite Hid. cbn.
  by rewrite <- app_assoc.
Qed.

(** X23. A request context answers "http.request.referer" and
    "http.request.contenttype" itself only when the request has a value
    for them: when the referer or the content type is empty the embedded
    context is asked instead.  The other attributes are answered by the
    request also when they are empty. *)
Theorem empty_referer_and_content_type_fall_through (h : heap RW) (parent : Context)
    (startedAt : Time) (id : string) (r : http.Request) :
  let ctx := httpRequestContext parent startedAt id r in
  Value requestutil_RemoteAddr h ctx (KString "http.request.referer")
    = (if decide (http.Referer r = "")
       then Value requestutil_RemoteAddr h parent (KString "http.request.referer")
       else VString (http.Referer r))
  ∧ Value requestutil_RemoteAddr h ctx (KString "http.request.contenttype")
    = (if decide (http.Header_Get r "Content-Type" = "")
       then Value requestutil_RemoteAddr h parent (KString "http.request.contenttype")
       else VString (http.Header_Get r "Content-Type"))
  ∧ Value requestutil_RemoteAddr h ctx (KString "http.request.uri")
    = VString (http.RequestURI r)
  ∧ Value requestutil_RemoteAddr h ctx (KString "http.request.useragent")
    = VString (http.UserAgent r)
  ∧ Value requestutil_RemoteAddr h ctx (KString "http.request.host")
    = VString (http.Host r).
Proof.
  intros ctx.
  assert (Hreferer :
    Value requestutil_RemoteAddr h ctx (KString "http.request.referer")
    = if decide (http.Referer r ≠ "") then VString (http.Referer r)
      else Value requestutil_RemoteAddr h parent (KString "http.request.referer"))
    by reflexivity.
  assert (Hct :
    Value requestutil_RemoteAddr h ctx (KString "http.request.contenttype")
    = if decide (http.Header_Get r "Content-Type" ≠ "")
      then VString (http.Header_Get r "Content-Type")
      else Value requestutil_RemoteAddr h parent (KString "http.request.contenttype"))
    by reflexivity.
  rewrite Hreferer, Hct. split_and!; try reflexivity.
  - by destruct (decide (http.Referer r = "")), (decide (http.Referer r ≠ "")).
  - by destruct (decide (http.Header_Get r "Content-Type" = "")),
         (decide (http.Header_Get r "Content-Type" ≠ "")).
Qed.
End request_contexts.

(** * The further properties at work on the in-memory registry *)

Section further_witnesses.
Import example.

Lemma Create_falls_back_after_failed_mount_witness :
  linkedBlobStore.Create (store false) [linkedBlobStore.WithMountFrom stranger] w0
  = linkedBlobStore.Create (store false) []
      (mkWorld populated [OpRepository stranger; OpRepositoryStat "library/base" layer] []).
Proof.
  assert (Hm :
    linkedBlobStore.mount (store false) stranger (reference.Digest stranger) None
      (mkWorld (ext w0) (calls w0) (logged w0 ++ ["(*linkedBlobStore).Create"]))
    = (Err ErrBlobUnknown,
       mkWorld populated [OpRepository stranger; OpRepositoryStat "library/base" layer]
         ["(*linkedBlobStore).Create"])) by evaluated.
  exact (Create_falls_back_after_failed_mount (store false)
           [linkedBlobStore.WithMountFrom stranger]
           (CreateOptions.mk (CreateOptions.mkMount true (Some stranger) None))
           stranger w0 _ _ eq_refl eq_refl eq_refl Hm).
Defined.

Lemma Create_writes_startedat_then_opens_data_witness :
  linkedBlobStore.Create (store false) [linkedBlobStore.WithMountFrom stranger] w0
    = (Ok upload0, created_after_mount)
  ∧ ∃ sp ops,
      pathFor (uploadDataPathSpec "library/app" "upload-0") = inr (data_of "upload-0") ∧
      pathFor (uploadStartedAtPathSpec "library/app" "upload-0") = inr sp ∧
      calls created_after_mount = calls w0 ++ ops ++
        [OpNewString; OpNow; OpPutContent sp (time_Format 1000);
         OpWriter (data_of "upload-0") false] ∧
      false = false.
Proof.
  assert (HC :
    linkedBlobStore.Create (store false) [linkedBlobStore.WithMountFrom stranger] w0
    = (Ok upload0, created_after_mount)) by evaluated.
  split; [exact HC |].
  exact (Create_writes_startedat_then_opens_data (store false) _ w0 upload0 _ HC).
Defined.

Lemma Create_leaves_startedat_behind_witness :
  linkedBlobStore.Create (store false) [] (inmemory.world (registry 0 [startedat_of "upload-0"]))
    = (Err (DriverError (DriverFailure "i/o failure")),
       mkWorld (registry 1 [startedat_of "upload-0"])
         [OpNewString; OpNow; OpPutContent (startedat_of "upload-0") (time_Format 1000)]
         ["(*linkedBlobStore).Create"])
  ∧ linkedBlobStore.Create (store false) [] (inmemory.world (registry 0 [data_of "upload-0"]))
    = (Err (DriverError (DriverFailure "i/o failure")),
       mkWorld (with_startedat (registry 1 [data_of "upload-0"]))
         [OpNewString; OpNow; OpPutContent (startedat_of "upload-0") (time_Format 1000);
          OpWriter (data_of "upload-0") false]
         ["(*linkedBlobStore).Create"]).
Proof.
  assert (Hd : pathFor (uploadDataPathSpec (linkedBlobStore.repository (store false))
                          "upload-0") = inr (data_of "upload-0")) by evaluated.
  assert (Hs : pathFor (uploadStartedAtPathSpec (linkedBlobStore.repository (store false))
                          "upload-0") = inr (startedat_of "upload-0")) by evaluated.
  split.
  - set (broken := [startedat_of "upload-0"]).
    assert (Hu : handle OpNewString (ext (inmemory.world (registry 0 broken)))
                 = ("upload-0", registry 1 broken)) by evaluated.
    assert (Hn : handle OpNow (registry 1 broken) = (1000, registry 1 broken))
      by evaluated.
    assert (Hp : handle (OpPutContent (startedat_of "upload-0") (time_Format 1000))
                   (registry 1 broken)
                 = (inl (DriverFailure "i/o failure"), registry 1 broken)) by evaluated.
    exact (proj1 (Create_leaves_startedat_behind (store false) (inmemory.world (registry 0 broken))
                    _ _ _ _ _ _ Hu Hn Hd Hs) _ _ Hp).
  - set (broken := [data_of "upload-0"]).
    assert (Hu : handle OpNewString (ext (inmemory.world (registry 0 broken)))
                 = ("upload-0", registry 1 broken)) by evaluated.
    assert (Hn : handle OpNow (registry 1 broken) = (1000, registry 1 broken))
      by evaluated.
    assert (Hp : handle (OpPutContent (startedat_of "upload-0") (time_Format 1000))
                   (registry 1 broken)
                 = (inr tt, with_startedat (registry 1 broken))) by evaluated.
    assert (Hw : handle (OpWriter (data_of "upload-0") false)
                   (with_startedat (registry 1 broken))
                 = (inl (DriverFailure "i/o failure"), with_startedat (registry 1 broken)))
      by evaluated.
    exact (proj2 (Create_leaves_startedat_behind (store false) (inmemory.world (registry 0 broken))
                    _ _ _ _ _ _ Hu Hn Hd Hs) _ _ _ Hp Hw).
Defined.

Lemma Resume_recovers_created_upload_witness :
  linkedBlobStore.Resume (store false) "upload-0" created_world
  = (Ok upload0,
     mkWorld (ext created_world)
       (calls created_world ++
          [OpGetContent (startedat_of "upload-0"); OpWriter (data_of "upload-0") true])
       (logged created_world ++ ["(*linkedBlobStore).Resume"])).
Proof.
  assert (HC : linkedBlobStore.Create (store false) [] w0 = (Ok upload0, created_world))
    by evaluated.
  assert (Hs : pathFor (uploadStartedAtPathSpec (linkedBlobStore.repository (store false))
                          (blobWriter.id upload0)) = inr (startedat_of "upload-0"))
    by evaluated.
  assert (Hg : handle (OpGetContent (startedat_of "upload-0")) (ext created_world)
               = (inr (time_Format (blobWriter.startedAt upload0)), ext created_world))
    by evaluated.
  assert (Ht : time_Parse (time_Format (blobWriter.startedAt upload0)) = inr 1000)
    by evaluated.
  assert (Hw : handle (OpWriter (blobWriter.path upload0) true) (ext created_world)
               = (inr 0%nat, ext created_world)) by evaluated.
  exact (Resume_recovers_created_upload (store false) [] w0 upload0 created_world
           _ _ _ _ _ HC Hs Hg Ht Hw).
Defined.

Lemma WithMountFrom_overrides_earlier_options_witness :
  linkedBlobStore.apply_options
    [mount_with_stat from_base gzip_layer; linkedBlobStore.WithMountFrom stranger]
    CreateOptions.zero
  = Ok (CreateOptions.mk (CreateOptions.mkMount true (Some stranger) (Some gzip_layer))).
Proof.
  exact (WithMountFrom_overrides_earlier_options [mount_with_stat from_base gzip_layer]
           (CreateOptions.mk (CreateOptions.mkMount true (Some from_base) (Some gzip_layer)))
           stranger eq_refl).
Defined.

Lemma Create_stops_at_failing_option_witness :
  linkedBlobStore.Create (store false)
    [linkedBlobStore.WithMountFrom from_base; refusing_option;
     linkedBlobStore.WithMountFrom stranger] w0
  = (Err (OtherError "unexpected options type"),
     mkWorld populated [] ["(*linkedBlobStore).Create"]).
Proof.
  exact (Create_stops_at_failing_option (store false)
           [linkedBlobStore.WithMountFrom from_base]
           [linkedBlobStore.WithMountFrom stranger] refusing_option
           (CreateOptions.mk (CreateOptions.mkMount true (Some from_base) None))
           _ w0 eq_refl eq_refl).
Defined.

Lemma Delete_removes_the_requested_link_witness :
  linkedBlobStore.Delete (store true) layer_alias w0
  = (Ok tt,
     mkWorld unlinked
       [OpReadlink (link_of layer_alias); OpStatterStat layer; OpDelete (link_of layer_alias)]
       (logged w0 ++ cross_digest_warning layer_alias layer)).
Proof.
  assert (Hp : linkedBlobStatter.linkPath statter
                 (linkedBlobStatter.repository statter) layer_alias
               = Ok (link_of layer_alias)) by evaluated.
  assert (Hl : handle (OpReadlink (link_of layer_alias)) (ext w0) = (Ok layer, populated))
    by evaluated.
  assert (Hs : handle (OpStatterStat layer) populated = (Ok (octets layer 5), populated))
    by evaluated.
  assert (Hd : handle (OpDelete (link_of layer_alias)) populated = (inr tt, unlinked))
    by evaluated.
  exact (Delete_removes_the_requested_link (store true) statter layer_alias w0
           _ _ _ _ _ _ _ eq_refl eq_refl Hp Hl Hs Hd).
Defined.

Lemma Delete_keeps_a_stale_link_witness :
  linkedBlobStore.Delete (store true) swept w0
  = (Err ErrBlobUnknown,
     mkWorld populated [OpReadlink (link_of swept); OpStatterStat swept]
       (logged w0 ++ cross_digest_warning swept swept)).
Proof.
  assert (Hp : linkedBlobStatter.linkPath statter
                 (linkedBlobStatter.repository statter) swept
               = Ok (link_of swept)) by evaluated.
  assert (Hl : handle (OpReadlink (link_of swept)) (ext w0) = (Ok swept, populated))
    by evaluated.
  assert (Hs : handle (OpStatterStat swept) populated = (Err ErrBlobUnknown, populated))
    by evaluated.
  exact (Delete_keeps_a_stale_link (store true) statter swept w0
           _ _ _ _ _ eq_refl eq_refl Hp Hl Hs).
Defined.

Lemma statter_Stat_returns_other_errors_witness :
  linkedBlobStatter.Stat pathless layer w0 = (Err (PathError "invalid digest"), w0)
  ∧ linkedBlobStatter.Stat statter layer (inmemory.world (registry 0 [link_of layer]))
    = (Err (DriverError (DriverFailure "i/o failure")),
       mkWorld (registry 0 [link_of layer]) [OpReadlink (link_of layer)] []).
Proof.
  set (broken := [link_of layer]).
  assert (Hp : linkedBlobStatter.linkPath statter
                 (linkedBlobStatter.repository statter) layer
               = Ok (link_of layer)) by evaluated.
  assert (Hl : handle (OpReadlink (link_of layer)) (ext (inmemory.world (registry 0 broken)))
               = (Err (DriverError (DriverFailure "i/o failure")), registry 0 broken))
    by evaluated.
  split.
  - exact (proj1 (statter_Stat_returns_other_errors pathless layer w0) _ eq_refl).
  - refine (proj2 (statter_Stat_returns_other_errors statter layer
                     (inmemory.world (registry 0 broken))) _ _ _ Hp Hl _).
    intros q Hq. discriminate Hq.
Defined.

Lemma mount_links_nothing_without_source_witness :
  linkedBlobStore.mount (store false) stranger layer None w0
  = (Err ErrBlobUnknown,
     mkWorld populated [OpRepository stranger; OpRepositoryStat "library/base" layer] []).
Proof.
  assert (Hr : handle (OpRepository stranger) (ext w0) = (Ok "library/base", populated))
    by evaluated.
  assert (Hs : handle (OpRepositoryStat "library/base" layer) populated
               = (Err ErrBlobUnknown, populated)) by evaluated.
  exact (proj2 (mount_links_nothing_without_source (store false) stranger layer w0)
           _ _ _ _ Hr Hs).
Defined.

Lemma linkBlob_links_canonical_first_witness :
  linkedBlobStore.linkBlob (store false) (octets layer 5) [layer_alias]
    (inmemory.world (registry 0 [link_of layer]))
  = (Err (DriverError (DriverFailure "i/o failure")),
     mkWorld (registry 0 [link_of layer]) [OpLink (link_of layer) layer] []).
Proof.
  set (broken := [link_of layer]).
  assert (Hp : linkedBlobStore.linkPath (store false)
                 (linkedBlobStore.repository (store false)) (v1.Digest (octets layer 5))
               = Ok (link_of layer)) by evaluated.
  assert (Hl : handle (OpLink (link_of layer) (v1.Digest (octets layer 5)))
                 (ext (inmemory.world (registry 0 broken)))
               = (Err (DriverError (DriverFailure "i/o failure")), registry 0 broken))
    by evaluated.
  exact (proj2 (proj2 (linkBlob_links_canonical_first (store false) (octets layer 5)
                         [layer_alias] (inmemory.world (registry 0 broken))))
           _ _ _ Hp Hl).
Defined.

Lemma Enumerate_skips_target_without_own_link_witness :
  linkedBlobStore.Enumerate_visit (store false) ingestor_call
    (mkFileInfo (link_of foreign) false) (inmemory.world with_foreign_link)
  = (Ok tt,
     mkWorld with_foreign_link [OpReadlink (link_of foreign); OpReadlink (link_of base_only)]
       []).
Proof.
  assert (Hk : is_link (mkFileInfo (link_of foreign) false)) by (split; evaluated).
  assert (Hr : handle (OpReadlink (link_of foreign)) (ext (inmemory.world with_foreign_link))
               = (Ok base_only, with_foreign_link)) by evaluated.
  assert (Hp : linkedBlobStatter.linkPath statter
                 (linkedBlobStatter.repository statter) base_only
               = Ok (link_of base_only)) by evaluated.
  assert (Ha : handle (OpReadlink (link_of base_only)) with_foreign_link
               = (Err (DriverError (PathNotFoundError (link_of base_only))),
                  with_foreign_link)) by evaluated.
  exact (Enumerate_skips_target_without_own_link (store false) statter ingestor_call
           _ (inmemory.world with_foreign_link) _ _ _ _ _ eq_refl Hk Hr Hp Ha).
Defined.

Lemma Put_links_what_the_store_returned_witness :
  linkedBlobStore.Put stored_digest full_Put (λ _, "no space left") (store false)
      "text/plain" "1f" w0
    = (Err (OtherError "no space left"),
       mkWorld populated [] ["error putting into main store: no space left"])
  ∧ linkedBlobStore.Put (λ _, layer) store_Put (λ _, "no space left") (store false)
      "text/plain" "1f" w0
    = (Ok (v1.mkDescriptor "text/plain" "sha256:1f" 2),
       mkWorld (ext put_world) [OpLink (link_of "sha256:1f") "sha256:1f"] []).
Proof.
  assert (HP : store_Put "text/plain" "1f" w0
               = (Ok (v1.mkDescriptor "text/plain" "sha256:1f" 2), put_world)) by evaluated.
  assert (Hp : linkedBlobStore.linkPath (store false)
                 (linkedBlobStore.repository (store false)) "sha256:1f"
               = Ok (link_of "sha256:1f")) by evaluated.
  assert (Hl : handle (OpLink (link_of "sha256:1f") "sha256:1f") (ext put_world)
               = (Ok tt, ext put_world)) by evaluated.
  split.
  - exact (proj1 (Put_links_what_the_store_returned stored_digest full_Put
                    (λ _, "no space left") (store false) "text/plain" "1f" w0)
             _ _ eq_refl).
  - exact (proj2 (Put_links_what_the_store_returned (λ _, layer) store_Put
                    (λ _, "no space left") (store false) "text/plain" "1f" w0)
             statter _ _ _ _ _ eq_refl HP Hp Hl).
Defined.
End further_witnesses.

Section context_witnesses.
Import dcontext example request_example.

Lemma status_follows_last_WriteHeader_witness :
  Value remote
      (after_calls 0%nat ([Writes "hello"; Writes "world"] ++ WritesHeader 404 ::
                      [Writes "!"; Flushes]) one_writer)
      (instrumentedResponseWriter background 0%nat) (KString "http.response.status")
    = VInt 404
  ∧ Value remote (after_calls 0%nat [Writes "!"; Flushes] one_writer)
      (instrumentedResponseWriter background 0%nat) (KString "http.response.status")
    = VInt 200.
Proof.
  exact (status_follows_last_WriteHeader remote background 0%nat one_writer
           [Writes "hello"; Writes "world"] [Writes "!"; Flushes] 404 eq_refl).
Defined.

Lemma route_variable_answers_two_keys_witness :
  Value remote no_writers (WithVars (λ _, route) background pull) (KString "name")
    = VString "library/app".
Proof.
  assert (Hv : route !! "name" = Some "library/app") by evaluated.
  assert (Hname : "name" ≠ "vars") by discriminate.
  exact (proj2 (route_variable_answers_two_keys remote (λ _, route) background no_writers
                  pull "name")
           _ Hv Hname eq_refl).
Defined.

Lemma WithRequest_panics_on_second_request_witness :
  WithRequest remote no_writers serving pull w0
    = (Panic "only one request per context", w0).
Proof.
  exact (WithRequest_panics_on_second_request remote no_writers serving pull w0 eq_refl).
Defined.

Lemma WithRequest_stamps_the_request_witness :
  ∃ ctx',
    WithRequest remote no_writers (muxVarsContext background route) pull w0
      = (Ok ctx', mkWorld (registry 1 []) [OpNow; OpNewString] []) ∧
    Value remote no_writers ctx' (KString "http.request") = VRequest pull ∧
    Value remote no_writers ctx' (KString "http.request.id") = VString "upload-0" ∧
    Value remote no_writers ctx' (KString "http.request.startedat") = VTime 1000 ∧
    (∀ tag, Value remote no_writers ctx' (KOther tag)
            = Value remote no_writers (muxVarsContext background route) (KOther tag)).
Proof.
  assert (Hnil : Value remote no_writers (muxVarsContext background route)
                   (KString "http.request") = Nil) by evaluated.
  assert (Hnow : handle OpNow (ext w0) = (1000, populated)) by evaluated.
  assert (Hid : handle OpNewString populated = ("upload-0", registry 1 [])) by evaluated.
  exact (WithRequest_stamps_the_request remote no_writers
           (muxVarsContext background route) pull w0 _ _ _ _ Hnil Hnow Hid).
Defined.

Lemma written_sums_reported_counts_witness :
  Value remote (after_calls 0%nat [Writes "hello"; Flushes; Writes "world"] one_writer)
      (instrumentedResponseWriter background 0%nat) (KString "http.response.written")
    = VInt64 8
  ∧ reported 0%nat [Writes "hello"; Flushes; Writes "world"] one_writer = [5; 3].
Proof.
  assert (Hsum : wrap64 (total_of (wrapped_counts [Writes "hello"; Flushes; Writes "world"]
                                     (recorder.mk 8 0 "" 0))) = 8) by evaluated.
  assert (Hcounts : wrapped_counts [Writes "hello"; Flushes; Writes "world"]
                      (recorder.mk 8 0 "" 0) = [5; 3]) by evaluated.
  pose proof (written_sums_reported_counts remote background (recorder.mk 8 0 "" 0)
                no_writers [Writes "hello"; Flushes; Writes "world"]) as (Hw & _ & Hr).
  split.
  - exact (eq_trans Hw (f_equal VInt64 Hsum)).
  - exact (eq_trans Hr Hcounts).
Defined.
End context_witnesses.

Section enumerate_counterexample.
Import example.

(** C8, against its wording: in "library/app" the link filed under
    [foreign] holds [base_only], a blob the global store knows, so the
    tree has three links to known blobs and one stale link; [Enumerate]
    returns no error and hands the ingestor two digests, not three,
    because the repository has no link filed under [base_only] itself. *)
Lemma known_blob_behind_foreign_link_is_not_ingested :
  ¬ ingests_known_targets (store false) (inmemory.world with_foreign_link).
Proof.
  intros Hclaim.
  assert (Hroot : pathFor (linkedBlobStore.linkDirectoryPathSpec (store false))
                  = inr layers_root) by evaluated.
  assert (Hwalk : handle (OpWalk layers_root) (ext (inmemory.world with_foreign_link))
                  = (layers_walk ++ [Visit (mkFileInfo (link_of foreign) false)],
                     with_foreign_link)) by evaluated.
  assert (Hactual :
    ingests (calls (linkedBlobStore.Enumerate (store false) ingestor_call
                      (inmemory.world with_foreign_link)).2) = [layer; layer])
    by evaluated.
  destruct (Hclaim _ _ _ [layer; layer; base_only] Hroot Hwalk) as (w' & HE & Hing).
  - unfold layers_walk. cbn [app].
    apply targets_resolved with (desc := octets layer 5);
      [split; evaluated | evaluated | evaluated |].
    apply targets_unknown with (d := swept);
      [split; evaluated | evaluated | evaluated |].
    apply targets_resolved with (desc := octets layer 5);
      [split; evaluated | evaluated | evaluated |].
    apply targets_resolved with (desc := octets base_only 9);
      [split; evaluated | evaluated | evaluated |].
    apply targets_done.
  - rewrite HE in Hactual. cbn [snd] in Hactual. rewrite Hing in Hactual.
    cbn in Hactual. discriminate Hactual.
Qed.
End enumerate_counterexample.
